(** * data_utils: tabular helpers of the deconvolution workflow

    A shallow embedding of [src/data_utils.py].  Tables are pandas data
    frames: two label axes and a row-major block of cells.  Cells are
    rationals ([Q], compared with [==]), the finite machine numbers being
    among them.  Where the outcome hinges on it, in the min-max rescaling,
    every operation is rounded as binary64 rounds it ([Binary64.round]);
    elsewhere the arithmetic is exact, and the non-finite results of a
    division by zero are modelled.  The calls into pandas, scikit-learn and
    scipy are modelled by their documented behaviour, each in a definition
    named after the call. *)

From Stdlib Require Import QArith Qminmax Qabs Lqa Qround Qpower.
From stdpp Require Import gmap strings list fin_maps sorting.

(** ** Exceptions and the state-and-error monad *)

Inductive exn :=
  | ValueError (msg : string)
  | KeyError (key : string)
  | NameError (name : string)
  | UnboundLocalError (name : string)
  | FileNotFoundError (path : string)
  | AxisError (axis : Z).

Inductive result (A : Type) :=
  | Ok (a : A)
  | Raise (e : exn).
Arguments Ok {A} a.
Arguments Raise {A} e.

Definition is_ok {A} (r : result A) : bool :=
  match r with Ok _ => true | Raise _ => false end.

(** A computation over a state [S] that may raise; the state reached when the
    exception is raised is kept, so that effects before a failure stay
    visible. *)
Definition prog (S A : Type) : Type := S → result A * S.

Global Instance prog_ret {S} : MRet (prog S) := λ A a s, (Ok a, s).
Global Instance prog_bind {S} : MBind (prog S) := λ A B k m s,
  match m s with
  | (Ok a, s') => k a s'
  | (Raise e, s') => (Raise e, s')
  end.
Definition raise {S A} (e : exn) : prog S A := λ s, (Raise e, s).
Definition lift {S A} (r : result A) : prog S A := λ s, (r, s).

(** The pure error monad, for the functions that touch no state. *)
Global Instance result_ret : MRet result := λ A a, Ok a.
Global Instance result_bind : MBind result := λ A B k r,
  match r with Ok a => k a | Raise e => Raise e end.

(** ** Table readers *)

Module Readers.

(** A cell of a freshly parsed file: text or a number. *)
Inductive cell :=
  | Text (s : string)
  | Num (q : Q).

(** What [pd.read_csv] returns: the header and the parsed rows (the row
    labels are the default positions).  [read_csv] renames repeated header
    names, so the column names of a parsed file are distinct. *)
Record RawFrame := {
  raw_columns : list string;
  raw_rows : list (list cell)
}.

(** The expression table handed back to the caller: rows keyed by the
    chosen gene identifier. *)
Record ExprFrame := {
  expr_index : list cell;
  expr_columns : list string;
  expr_rows : list (list cell)
}.

(** The file system, and the log of the paths handed to [pd.read_csv]. *)
Record World := {
  files : gmap string RawFrame;
  reads : list string
}.

Section WithStr.
(** Python's [str] on a number. *)
Variable py_str : Q → string.

(** [pd.read_csv(path, sep='\t')]: the read is attempted, and fails when
    there is no such file. *)
Definition read_csv (path : string) : prog World RawFrame :=
  λ w, let w' := {| files := files w; reads := reads w ++ [path] |} in
       match files w !! path with
       | Some f => (Ok f, w')
       | None => (Raise (FileNotFoundError path), w')
       end.

Fixpoint col_pos (name : string) (cols : list string) : option nat :=
  match cols with
  | [] => None
  | c :: cols' => if decide (c = name) then Some 0%nat
                  else S <$> col_pos name cols'
  end.

Definition astype_str (c : cell) : cell :=
  match c with Text s => Text s | Num q => Text (py_str q) end.

(** [rna[names] = rna[names].astype(str)]: every name must be a column
    ([KeyError] otherwise); the named columns are rewritten as text. *)
Fixpoint columns_astype_str (names : list string) (f : RawFrame)
    : result RawFrame :=
  match names with
  | [] => Ok f
  | n :: names' =>
      match col_pos n (raw_columns f) with
      | None => Raise (KeyError n)
      | Some j =>
          columns_astype_str names'
            {| raw_columns := raw_columns f;
               raw_rows := (λ r, alter astype_str j r) <$> raw_rows f |}
      end
  end.

(** [rna.set_index([key]).drop([other], axis=1)]: the column [key] becomes
    the row labels, and the column [other] is dropped. *)
Definition set_index_drop (key other : string) (f : RawFrame)
    : result ExprFrame :=
  match col_pos key (raw_columns f), col_pos other (raw_columns f) with
  | None, _ => Raise (KeyError key)
  | _, None => Raise (KeyError other)
  | Some k, Some o =>
      let keep {A} (l : list A) : list A :=
        (imap (λ j x, if decide (j = k ∨ j = o) then None else Some x) l)
          ≫= option_list in
      Ok {| expr_index := (λ r, default (Text "") (r !! k)) <$> raw_rows f;
            expr_columns := keep (raw_columns f);
            expr_rows := keep <$> raw_rows f |}
  end.

(** The file is read, and its identifier columns turned to text, before
    [identifier] is looked at. *)
Definition read_pancancer_rna_file (rna_file_path identifier : string)
    : prog World ExprFrame :=
  rna ← read_csv rna_file_path;
  rna ← lift (columns_astype_str ["Hugo_Symbol"; "Entrez_Gene_Id"] rna);
  if decide (identifier = "hugo") then
    lift (set_index_drop "Hugo_Symbol" "Entrez_Gene_Id" rna)
  else if decide (identifier = "entrez") then
    lift (set_index_drop "Entrez_Gene_Id" "Hugo_Symbol" rna)
  else
    raise (ValueError "gene identifier must be set to 'hugo' or 'entrez'").

End WithStr.
End Readers.

(** ** Numbers *)

Definition Qltb (x y : Q) : bool := negb (Qle_bool y x).

Global Instance Q_inhabited : Inhabited Q := populate 0%Q.

Global Instance Qlt_dec : RelDecision Qlt.
Proof.
  intros x y. destruct (Qle_bool y x) eqn:E.
  - right. apply Qle_not_lt. by apply Qle_bool_iff.
  - left. apply Qnot_le_lt. intros H. apply Qle_bool_iff in H. congruence.
Defined.

Global Instance Qle_dec : RelDecision Qle.
Proof.
  intros x y. destruct (Qle_bool x y) eqn:E.
  - left. by apply Qle_bool_iff.
  - right. intros H. apply Qle_bool_iff in H. congruence.
Defined.

(** ** Binary64 rounding *)

(** The finite numbers of IEEE 754 binary64 are the rationals [m * 2^q] with
    [|m| < 2^53] and [q >= -1074].  An operation of the machine returns the
    exact result rounded to the nearest of them, to the one with an even
    [m] when two are as near.  Results too large for the format (from
    [2^1024] on) overflow to an infinity, which is left out: the tables
    below hold numbers far from that. *)
Module Binary64.

Definition pow2 (k : Z) : Q := (2 ^ k)%Q.

(** The nearest integer, the even one of the two when [x] is half-way. *)
Definition rne (x : Q) : Z :=
  let f := Qfloor x in
  match (x - inject_Z f ?= 1 # 2)%Q with
  | Lt => f
  | Gt => (f + 1)%Z
  | Eq => if Z.even f then f else (f + 1)%Z
  end.

(** The exponent [e] of the binade of a positive [x]:
    [2^e <= x < 2^(e+1)]. *)
Definition flog2 (x : Q) : Z :=
  let k := (Z.log2 (Qnum x) - Z.log2 (Zpos (Qden x)))%Z in
  if Qle_bool (pow2 k) x then k else (k - 1)%Z.

(** The exponent of the unit in the last place: 53 significant bits, and
    the fixed step [2^-1074] below the normal range. *)
Definition ulp_exp (x : Q) : Z := Z.max (flog2 x - 52) (-1074).

Definition round_pos (x : Q) : Q :=
  (inject_Z (rne (x / pow2 (ulp_exp x))) * pow2 (ulp_exp x))%Q.

Definition round (x : Q) : Q :=
  match (x ?= 0)%Q with
  | Eq => 0%Q
  | Gt => round_pos x
  | Lt => (- round_pos (- x))%Q
  end.

(** The machine epsilon, [np.finfo(np.float64).eps]. *)
Definition eps : Q := pow2 (-52).

End Binary64.


(** The value of a floating-point division: a finite number, an infinity, or
    not-a-number. *)
Inductive float :=
  | Fin (q : Q)
  | PosInf
  | NegInf
  | NaN.

(** [x / y] for a finite [x]: dividing by zero gives an infinity of the sign
    of [x], and [0 / 0] is not a number. *)
Definition fdiv (x : Q) (y : float) : float :=
  match y with
  | Fin d =>
      if Qeq_bool d 0 then
        if Qeq_bool x 0 then NaN else if Qltb 0 x then PosInf else NegInf
      else Fin (x / d)%Q
  | PosInf | NegInf => Fin 0%Q
  | NaN => NaN
  end.

(** [a < c] and [a > c] against a finite cutoff; both are false on [NaN]. *)
Definition flt (a : float) (c : Q) : bool :=
  match a with Fin q => Qltb q c | NegInf => true | PosInf | NaN => false end.
Definition fgt (a : float) (c : Q) : bool :=
  match a with Fin q => Qltb c q | PosInf => true | NegInf | NaN => false end.

(** ** Tables *)

(** A data frame: row labels, column labels, and the cells row by row.  [L] is
    the type of an axis and [V] the type of a cell; the gene tables below have
    lists of text labels and finite cells. *)
Record DataFrame (L V : Type) := {
  index : L;
  columns : L;
  values : list (list V)
}.
Arguments index {L V} d.
Arguments columns {L V} d.
Arguments values {L V} d.

Abbreviation Table := (DataFrame (list string) Q).

(** An axis has a length ([len(df.index)]). *)
Class AxisLen (L : Type) := axis_len : L → nat.
Global Instance list_axis_len : AxisLen (list string) := length.

(** Shape: one row per row label, one cell per column label in each row. *)
Definition rectangular {L V} `{AxisLen L} (df : DataFrame L V) : Prop :=
  length (values df) = axis_len (index df) ∧
  Forall (λ r, length r = axis_len (columns df)) (values df).

(** [series[mask]]: the entries at which the boolean mask holds. *)
Fixpoint boolean_select {A} (mask : list bool) (l : list A) : list A :=
  match mask, l with
  | b :: mask', x :: l' =>
      if b then x :: boolean_select mask' l' else boolean_select mask' l'
  | _, _ => []
  end.

(** The cells at position [j] of every row. *)
Definition column {V} `{Inhabited V} (j : nat) (X : list (list V)) : list V :=
  (λ row, row !!! j) <$> X.

(** [df.transpose()]: the axes are exchanged and the cells read column by
    column. *)
Definition transpose {L V} `{AxisLen L, Inhabited V} (df : DataFrame L V)
    : DataFrame L V :=
  {| index := columns df;
     columns := index df;
     values := (λ j, column j (values df)) <$> seq 0 (axis_len (columns df)) |}.

(** The position of the first column of a given name. *)
Definition column_pos (name : string) (cols : list string) : option nat :=
  fst <$> list_find (λ c, c = name) cols.

(** [frame[name]] for one column label of a frame whose column labels are
    distinct: the cells under that column, row by row ([KeyError] when there
    is no such column). *)
Definition getitem {V} `{Inhabited V} (df : DataFrame (list string) V)
    (name : string) : result (list V) :=
  match column_pos name (columns df) with
  | Some j => Ok (column j (values df))
  | None => Raise (KeyError name)
  end.

(** ** Up- and down-regulated genes *)

Definition sum_Q (l : list Q) : Q := foldr Qplus 0%Q l.

(** [median] of one row: the middle of the sorted cells, the mean of the two
    middle ones when their number is even; not a number on an empty row. *)
Definition median (row : list Q) : float :=
  let s := merge_sort Qle row in
  let n := length row in
  match n with
  | O => NaN
  | _ => if Nat.even n
         then Fin ((s !!! (n / 2 - 1)%nat + s !!! (n / 2)%nat) / 2)%Q
         else Fin (s !!! (n / 2)%nat)
  end.

(** [sig_df.divide(ref['reference'], axis=0)]: every cell over the reference
    of its row. *)
Definition divide (sig_df : Table) (ref : list float)
    : DataFrame (list string) float :=
  {| index := index sig_df;
     columns := columns sig_df;
     values := zip_with (λ row m, (λ x, fdiv x m) <$> row) (values sig_df) ref |}.

Global Instance float_inhabited : Inhabited float := populate NaN.


(** The body of a loop [for cell in frame.columns] that stores, under the
    key [cell], something computed from the column [frame[cell]]: in one
    dictionary, or in two.  [cell] being a column label, the lookup
    [frame[cell]] does not fail. *)
Definition fill_one {A B} (F : string → result A) (U : A → B)
    : gmap string B → string → gmap string B :=
  λ d cell,
    match F cell with
    | Ok col => <[cell := U col]> d
    | Raise _ => d
    end.
Definition fill_two {A B C} (F : string → result A) (U : A → B) (D : A → C)
    : gmap string B * gmap string C → string
      → gmap string B * gmap string C :=
  λ '(up, down) cell,
    match F cell with
    | Ok col => (<[cell := U col]> up, <[cell := D col]> down)
    | Raise _ => (up, down)
    end.

(** The plots of [show_plots] change nothing that is returned and are left
    out. *)
Definition find_up_down_genes_from_sig (sig_df : Table)
    (down_cutoff up_cutoff : Q)
    : gmap string (list string) * gmap string (list string) :=
  let ref := median <$> values sig_df in
  let sig_ratios := divide sig_df ref in
  foldl
    (fill_two (getitem sig_ratios)
       (λ col, boolean_select ((λ r, fgt r up_cutoff) <$> col)
                 (index sig_ratios))
       (λ col, boolean_select ((λ r, flt r down_cutoff) <$> col)
                 (index sig_ratios)))
    (∅, ∅) (columns sig_ratios).

Definition default_down_cutoff : Q := 4 # 10.
Definition default_up_cutoff : Q := 4.

(** ** Genes shared by two tables *)

(** Text labels are ordered as Python orders strings, character by
    character. *)
Definition string_le (s1 s2 : string) : Prop := String.leb s1 s2 = true.
Global Instance string_le_dec : RelDecision string_le.
Proof. intros s1 s2. unfold string_le. apply _. Defined.

(** The rows of a table, each with its label. *)
Definition rows {V} (df : DataFrame (list string) V)
    : list (string * list V) :=
  zip (index df) (values df).
Definition of_rows {V} (cols : list string) (rs : list (string * list V))
    : DataFrame (list string) V :=
  {| index := rs.*1; columns := cols; values := rs.*2 |}.

(** The row labels of [pd.merge(left, right, how='inner', left_index=True,
    right_index=True)]: every left key once for each right row of the same
    key, in the order of the left keys. *)
Definition merge_inner_index (left right : list string) : list string :=
  left ≫= λ k, filter (λ k', k' = k) right.

(** [df.loc[labels]]: for each label in turn, every row so labelled
    ([KeyError] when a label has no row). *)
Fixpoint loc_rows {V} (rs : list (string * list V)) (labels : list string)
    : result (list (string * list V)) :=
  match labels with
  | [] => Ok []
  | l :: labels' =>
      match filter (λ r, r.1 = l) rs with
      | [] => Raise (KeyError l)
      | found => rest ← loc_rows rs labels'; Ok (found ++ rest)
      end
  end.
Definition loc {V} (df : DataFrame (list string) V) (labels : list string)
    : result (DataFrame (list string) V) :=
  rs ← loc_rows (rows df) labels; Ok (of_rows (columns df) rs).

(** [df.sort_index()]: the rows in ascending order of their labels.  The
    library's default sort fixes no order among rows of one label; the
    statements below are about the labels only. *)
Definition key_le {V} (r1 r2 : string * list V) : Prop := string_le r1.1 r2.1.
Global Instance key_le_dec {V} : RelDecision (@key_le V).
Proof. intros r1 r2. unfold key_le. apply _. Defined.

Definition sort_index {V} (df : DataFrame (list string) V)
    : DataFrame (list string) V :=
  of_rows (columns df) (merge_sort key_le (rows df)).

Definition keep_common_genes (rna_df sig_df : Table) : result (Table * Table) :=
  let shared_index := merge_inner_index (index rna_df) (index sig_df) in
  rna_df_red ← loc rna_df shared_index;
  sig_df_red ← loc sig_df shared_index;
  let rna_df_red := sort_index rna_df_red in
  let sig_df_red := sort_index sig_df_red in
  Ok (rna_df_red, sig_df_red).

(** ** Top-ranked genes *)

Section Ranking.

(** [numpy.argsort] with the default [kind]: positions that put the array in
    ascending order.  [sort_values] is called below without a [kind], which
    pandas documents as [kind='quicksort'], adding that 'mergesort' and
    'stable' are the only stable algorithms: the order given to equal cells
    is the library's business.  The sort is therefore a parameter of the
    model, and [argsort_sorts] is what the library promises of it. *)
Variable argsort : list Q → list nat.

Definition argsort_sorts : Prop :=
  ∀ a : list Q,
    argsort a ≡ₚ seq 0 (length a) ∧
    Sorted Qle ((λ k, a !!! k) <$> argsort a).

(** [nargsort(values, ascending=False)] of pandas, the positions in the
    order in which a descending [sort_values] lists them: the array is
    reversed, sorted in ascending order, the positions are mapped back and
    the outcome is reversed. *)
Definition nargsort_descending (vals : list Q) : list nat :=
  let idx := seq 0 (length vals) in
  let non_nans := reverse vals in
  let non_nan_idx := reverse idx in
  let indexer := (λ k, non_nan_idx !!! k) <$> argsort non_nans in
  reverse indexer.

(** [series.sort_values(ascending=False).index]. *)
Definition sort_values_descending (labels : list string) (vals : list Q)
    : list string :=
  (λ i, labels !!! i) <$> nargsort_descending vals.

(** [top_genes] gets one column per cell type, and [to_dict('list')] turns it
    into a dictionary from the column name to the column. *)
Definition get_top_ranked_genes_from_sig (sig_df : Table) (sig_size : nat)
    : gmap string (list string) :=
  foldl
    (fill_one (getitem sig_df)
       (λ col, take sig_size (sort_values_descending (index sig_df) col)))
    ∅ (columns sig_df).

End Ranking.

(** Two sorts that meet the contract of [argsort]: a merge sort of the
    positions taken in ascending order, and one of the positions taken in
    descending order. *)
Definition at_le (a : list Q) (i j : nat) : Prop := (a !!! i <= a !!! j)%Q.
Global Instance at_le_dec a : RelDecision (at_le a).
Proof. intros i j. unfold at_le. apply _. Defined.

Definition argsort_ascending (a : list Q) : list nat :=
  merge_sort (at_le a) (seq 0 (length a)).
Definition argsort_descending (a : list Q) : list nat :=
  merge_sort (at_le a) (reverse (seq 0 (length a))).

(** ** The default sort of numpy *)

(** [ndarray.argsort] with the default [kind='quicksort'] is an introsort on
    an array of positions ([aquicksort] of numpy's [npysort/quicksort]): a
    quicksort with a median-of-three pivot, which hands the partitions of
    at most [SMALL_QUICKSORT + 1] entries to an insertion sort and those
    that have used up the depth allowed to a heap sort.  The loops of the
    library are written with a bound on their number of turns. *)
Module NumpySort.

Definition SMALL_QUICKSORT : nat := 16.

(** [npy_get_msb]: the position of the highest bit set. *)
Definition npy_get_msb (n : nat) : Z := Z.log2 (Z.of_nat n).

Section WithValues.
(** The array [v] that is sorted indirectly, through the positions in
    [tosort]. *)
Variable v : list Q.

(** [v[a] < v[b]]. *)
Definition less (a b : Q) : bool := Qltb a b.

(** [INTP_SWAP(tosort[i], tosort[j])]. *)
Definition swap (tosort : list nat) (i j : nat) : list nat :=
  <[j := tosort !!! i]> (<[i := tosort !!! j]> tosort).

(** [while (less(v[*pi], vp)) ++pi]. *)
Fixpoint scan_up (tosort : list nat) (vp : Q) (pi fuel : nat) : nat :=
  match fuel with
  | O => pi
  | S fuel' =>
      if less (v !!! (tosort !!! pi)) vp
      then scan_up tosort vp (S pi) fuel' else pi
  end.

(** [while (less(vp, v[*pj])) --pj]. *)
Fixpoint scan_down (tosort : list nat) (vp : Q) (pj fuel : nat) : nat :=
  match fuel with
  | O => pj
  | S fuel' =>
      if less vp (v !!! (tosort !!! pj))
      then scan_down tosort vp (pred pj) fuel' else pj
  end.

(** The partition loop: both scans move one step at least, and the two
    entries they stop at are exchanged until the scans meet. *)
Fixpoint partition (tosort : list nat) (vp : Q) (pi pj fuel : nat)
    : list nat * nat :=
  match fuel with
  | O => (tosort, pi)
  | S fuel' =>
      let pi := scan_up tosort vp (S pi) (length tosort) in
      let pj := scan_down tosort vp (pred pj) (length tosort) in
      if decide (pj ≤ pi) then (tosort, pi)
      else partition (swap tosort pi pj) vp pi pj fuel'
  end.

(** The median of the first, the middle and the last entry is put in the
    middle. *)
Definition median_of_three (tosort : list nat) (pl pm pr : nat) : list nat :=
  let tosort :=
    if less (v !!! (tosort !!! pm)) (v !!! (tosort !!! pl))
    then swap tosort pm pl else tosort in
  let tosort :=
    if less (v !!! (tosort !!! pr)) (v !!! (tosort !!! pm))
    then swap tosort pr pm else tosort in
  if less (v !!! (tosort !!! pm)) (v !!! (tosort !!! pl))
  then swap tosort pm pl else tosort.

(** One round of the quicksort: the positions [pl..pr] are partitioned
    around the median of three; the result is the array and the place of
    the pivot. *)
Definition partition_step (tosort : list nat) (pl pr : nat)
    : list nat * nat :=
  let pm := (pl + (pr - pl) / 2)%nat in
  let tosort := median_of_three tosort pl pm pr in
  let vp := v !!! (tosort !!! pm) in
  let tosort := swap tosort pm (pr - 1) in
  let '(tosort, pi) := partition tosort vp pl (pr - 1) (length tosort) in
  (swap tosort pi (pr - 1), pi).

(** The insertion of the entry at [pi] among the sorted entries before it:
    [while (pj > pl && less(vp, v[*pk])) *pj-- = *pk--; *pj = vi]. *)
Fixpoint insert_back (tosort : list nat) (pl vi pj fuel : nat) : list nat :=
  match fuel with
  | O => <[pj := vi]> tosort
  | S fuel' =>
      if bool_decide (pl < pj)
         && less (v !!! vi) (v !!! (tosort !!! pred pj))
      then insert_back (<[pj := tosort !!! pred pj]> tosort) pl vi (pred pj)
             fuel'
      else <[pj := vi]> tosort
  end.

Definition insertion_sort (tosort : list nat) (pl pr : nat) : list nat :=
  foldl (λ tosort pi,
           insert_back tosort pl (tosort !!! pi) pi (length tosort))
    tosort (seq (S pl) (pr - pl)).

(** The heap sort of the [n] positions from [pl] on, for the partitions
    that have used up the depth allowed; [a[i]] is the entry [i], counted
    from one. *)
Fixpoint sift_down (tosort : list nat) (pl n tmp i j fuel : nat)
    : list nat :=
  match fuel with
  | O => <[(pl + i - 1)%nat := tmp]> tosort
  | S fuel' =>
      if bool_decide (j ≤ n) then
        let j :=
          if bool_decide (j < n)
             && less (v !!! (tosort !!! (pl + j - 1)%nat))
                     (v !!! (tosort !!! (pl + j)%nat))
          then S j else j in
        if less (v !!! tmp) (v !!! (tosort !!! (pl + j - 1)%nat))
        then sift_down
               (<[(pl + i - 1)%nat := tosort !!! (pl + j - 1)%nat]> tosort)
               pl n tmp j (j + j) fuel'
        else <[(pl + i - 1)%nat := tmp]> tosort
      else <[(pl + i - 1)%nat := tmp]> tosort
  end.

Fixpoint heap_extract (tosort : list nat) (pl n fuel : nat) : list nat :=
  match fuel with
  | O => tosort
  | S fuel' =>
      if bool_decide (1 < n) then
        let tmp := tosort !!! (pl + n - 1)%nat in
        let tosort := <[(pl + n - 1)%nat := tosort !!! pl]> tosort in
        heap_extract (sift_down tosort pl (n - 1) tmp 1 2 n) pl (n - 1) fuel'
      else tosort
  end.

Definition aheapsort (tosort : list nat) (pl n : nat) : list nat :=
  let heap :=
    foldl (λ tosort l,
             sift_down tosort pl n (tosort !!! (pl + l - 1)%nat) l (2 * l) n)
      tosort (reverse (seq 1 (n / 2))) in
  heap_extract heap pl n n.

(** The loop of [aquicksort]: at the top of the loop ([top]) a partition
    out of depth is heap-sorted; otherwise a partition of more than
    [SMALL_QUICKSORT + 1] entries is split, the larger part is pushed and
    the smaller one is gone on with; a short partition is sorted by
    insertion; then the next partition is popped. *)
Fixpoint aquicksort_loop (tosort : list nat) (pl pr : nat) (cdepth : Z)
    (stack : list (nat * nat * Z)) (top : bool) (fuel : nat) : list nat :=
  let pop tosort fuel' :=
    match stack with
    | [] => tosort
    | (pl', pr', cdepth') :: stack' =>
        aquicksort_loop tosort pl' pr' cdepth' stack' true fuel'
    end in
  match fuel with
  | O => tosort
  | S fuel' =>
      if top && bool_decide (cdepth < 0)%Z then
        pop (aheapsort tosort pl (pr - pl + 1)) fuel'
      else if bool_decide (SMALL_QUICKSORT < pr - pl) then
        let '(tosort, pi) := partition_step tosort pl pr in
        if bool_decide (pi - pl < pr - pi) then
          aquicksort_loop tosort pl (pi - 1) (cdepth - 1)
            ((S pi, pr, (cdepth - 1)%Z) :: stack) false fuel'
        else
          aquicksort_loop tosort (S pi) pr (cdepth - 1)
            ((pl, (pi - 1)%nat, (cdepth - 1)%Z) :: stack) false fuel'
      else pop (insertion_sort tosort pl pr) fuel'
  end.

End WithValues.

(** [a.argsort(kind='quicksort')], the default kind: numpy's introsort on
    the positions. *)
Definition argsort (a : list Q) : list nat :=
  let num := length a in
  aquicksort_loop a (seq 0 num) 0 (num - 1) (npy_get_msb num * 2) [] true
    (2 * num + 2).

End NumpySort.

(** ** Variance threshold *)

Definition mean (l : list Q) : Q :=
  (sum_Q l / inject_Z (Z.of_nat (length l)))%Q.

(** [np.var]: the mean squared deviation from the mean. *)
Definition var (l : list Q) : Q :=
  mean ((λ x, (x - mean l) * (x - mean l))%Q <$> l).

(** The input validation of scikit-learn ([check_array]): an array without
    rows, or without columns, is refused.  (The messages of the library also
    give the shape of the array.) *)
Definition check_array (n_samples n_features : nat) : result () :=
  if decide (n_samples = 0%nat) then
    Raise (ValueError "Found array with 0 sample(s) while a minimum of 1 is required.")
  else if decide (n_features = 0%nat) then
    Raise (ValueError "Found array with 0 feature(s) while a minimum of 1 is required.")
  else Ok ().

(** The constraint of scikit-learn on the parameter of [VarianceThreshold]:
    a threshold below zero is refused with a [ValueError].  (Releases from
    1.2 on validate the parameter when [fit] starts, 1.0 and 1.1 test it
    once the variances are computed; the class of the error is the same,
    and so is the outcome of the statements below, which name no
    message.) *)
Definition check_threshold (threshold : Q) : result () :=
  if decide (threshold < 0)%Q then
    Raise (ValueError "The 'threshold' parameter of VarianceThreshold must be a float in the range [0.0, inf).")
  else Ok ().

(** [VarianceThreshold(threshold).fit(X)] followed by
    [get_support(indices=True)]: the threshold and the array are validated;
    then the variance of every feature (column of [X]) is taken; the fit
    fails when no feature is above the threshold (the message of the library
    also gives the threshold); the support is the positions of the features
    strictly above it.  The cells are finite numbers, and so are the
    variances. *)
Definition variance_threshold_support (X : Table) (threshold : Q)
    : result (list nat) :=
  check_threshold threshold;;
  check_array (length (index X)) (length (columns X));;
  let variances := var <$> values (transpose X) in
  if forallb (λ v, Qle_bool v threshold) variances then
    Raise (ValueError "No feature in X meets the variance threshold")
  else
    Ok (fst <$> filter (λ iv, Qltb threshold iv.2 = true)
                  (imap (λ i v, (i, v)) variances)).

(** [df[labels]] for a list of column labels: for each label in turn, every
    column so labelled ([KeyError] when a label names no column). *)
Definition getitem_columns {V} `{Inhabited V} (df : DataFrame (list string) V)
    (labels : list string) : result (DataFrame (list string) V) :=
  picked ← loc (transpose df) labels; Ok (transpose picked).

Definition variance_threshold_selector (data : Table) (threshold : Q)
    : result Table :=
  let data := transpose data in
  support ← variance_threshold_support data threshold;
  data_red ← getitem_columns data ((λ i, columns data !!! i) <$> support);
  Ok (transpose data_red).

(** ** Normalisation *)

(** The axis of a frame built from a bare array is the range of positions;
    the axis of a labelled frame is its list of labels. *)
Inductive Index :=
  | RangeIndex (stop : nat)
  | Labels (labels : list string).
Global Instance Index_axis_len : AxisLen Index := λ i,
  match i with RangeIndex n => n | Labels l => length l end.

Abbreviation Frame := (DataFrame Index Q).

(** What scikit-learn hands back: a bare array with its shape. *)
Record ndarray := {
  shape : nat * nat;
  data : list (list Q)
}.

(** [pd.DataFrame(array)]. *)
Definition DataFrame_of_array (a : ndarray) : Frame :=
  {| index := RangeIndex (shape a).1;
     columns := RangeIndex (shape a).2;
     values := data a |}.

(** Frames are objects: a variable holds a reference into the store. *)
Abbreviation ref := positive.
Abbreviation store := (gmap positive Frame).

Definition new (f : Frame) : prog store ref :=
  λ h, let l := fresh (dom h) in (Ok l, <[l := f]> h).
Definition get (l : ref) : prog store Frame :=
  λ h, match h !! l with
       | Some f => (Ok f, h)
       | None => (Raise (NameError "dangling reference"), h)
       end.

Definition put (l : ref) (f : Frame) : prog store () :=
  λ h, (Ok (), <[l := f]> h).

(** [frame.columns = labels] and [frame.index = labels] change the frame in
    place; the new axis must have the length of the old one. *)
Definition set_columns (l : ref) (labels : Index) : prog store () :=
  f ← get l;
  if decide (axis_len labels = axis_len (columns f)) then
    put l {| index := index f; columns := labels; values := values f |}
  else raise (ValueError "Length mismatch").
Definition set_index (l : ref) (labels : Index) : prog store () :=
  f ← get l;
  if decide (axis_len labels = axis_len (index f)) then
    put l {| index := labels; columns := columns f; values := values f |}
  else raise (ValueError "Length mismatch").

(** [_handle_zeros_in_scale] of scikit-learn (from 1.0 on) on an array of
    scales: a scale below ten machine epsilons, a zero scale among them, is
    replaced by one, so that a constant or nearly constant feature is only
    shifted. *)
Definition handle_zeros_in_scale (s : Q) : Q :=
  if decide (s < 10 * Binary64.eps)%Q then 1%Q else s.

(** Apply [f feature x] to every cell [x], [feature] being its whole column
    (or its whole row). *)
Definition map_by_column (f : list Q → Q → Q) (X : list (list Q))
    : list (list Q) :=
  (λ row, imap (λ j x, f (column j X) x) row) <$> X.
Definition map_by_row (f : list Q → Q → Q) (X : list (list Q))
    : list (list Q) :=
  (λ row, f row <$> row) <$> X.

Section Scale.
(** The floating-point square root. *)
Variable fsqrt : Q → Q.

(** The mean, the deviation and the quotient are written in exact
    arithmetic: the statements below use the shape and the labels of the
    standardised table, not the value of its cells. *)
Definition standardize (feature : list Q) (x : Q) : Q :=
  ((x - mean feature) / handle_zeros_in_scale (fsqrt (var feature)))%Q.

(** [preprocessing.scale(df, axis=axis)] (with its default [copy=True]): the
    cells less the mean over the standard deviation, along the axis. *)
Definition scale (df : Frame) (axis : Z) : result ndarray :=
  check_array (axis_len (index df)) (axis_len (columns df));;
  let sh := (axis_len (index df), axis_len (columns df)) in
  if decide (axis = 0 ∨ axis = -2)%Z then
    Ok {| shape := sh; data := map_by_column standardize (values df) |}
  else if decide (axis = 1 ∨ axis = -1)%Z then
    Ok {| shape := sh; data := map_by_row standardize (values df) |}
  else Raise (AxisError axis).
End Scale.

Definition min_of (l : list Q) : Q :=
  match l with [] => 0%Q | x :: l' => foldl Qmin x l' end.
Definition max_of (l : list Q) : Q :=
  match l with [] => 0%Q | x :: l' => foldl Qmax x l' end.

(** [MinMaxScaler()] with its default range [(0, 1)], column by column.
    The fit computes [data_range = data_max - data_min],
    [scale_ = (1 - 0) / _handle_zeros_in_scale(data_range)] and
    [min_ = 0 - data_min * scale_]; the transformation is [X *= scale_]
    followed by [X += min_].  Each of these operations is one operation of
    the machine, rounded; taking a minimum or a maximum rounds nothing. *)
Definition min_max (feature : list Q) (x : Q) : Q :=
  let data_min := min_of feature in
  let data_range := Binary64.round (max_of feature - data_min) in
  let scale_ := Binary64.round (1 / handle_zeros_in_scale data_range) in
  let min_ := Binary64.round (0 - Binary64.round (data_min * scale_)) in
  Binary64.round (Binary64.round (x * scale_) + min_).

Definition fit_transform (df : Frame) : result ndarray :=
  check_array (axis_len (index df)) (axis_len (columns df));;
  Ok {| shape := (axis_len (index df), axis_len (columns df));
        data := map_by_column min_max (values df) |}.

(** The cell at row [i] and column [j]. *)
Definition cell_at {L V} (df : DataFrame L V) (i j : nat) : option V :=
  values df !! i ≫= λ row, row !! j.


Section Normalization.
Variable fsqrt : Q → Q.

(** [df_norm] is a local variable, bound only in the two branches. *)
Definition df_normalization (df : ref) (scaling : string) (axis : Z)
    : prog store ref :=
  df_norm ←
    (if decide (scaling = "zscore") then
       d ← get df;
       df_norm ← lift (scale fsqrt d axis);
       df_norm ← new (DataFrame_of_array df_norm);
       mret (Some df_norm)
     else if decide (scaling = "minmax") then
       d ← get df;
       df_norm ← (if decide (axis = 1%Z) then new (transpose d) else new d);
       d_norm ← get df_norm;
       df_norm ← lift (fit_transform d_norm);
       df_norm ← new (DataFrame_of_array df_norm);
       if decide (axis = 1%Z) then
         d_norm ← get df_norm;
         df_norm ← new (transpose d_norm);
         mret (Some df_norm)
       else mret (Some df_norm)
     else mret None);
  match df_norm with
  | None => raise (UnboundLocalError "df_norm")
  | Some df_norm =>
      d ← get df;
      set_columns df_norm (columns d);;
      d ← get df;
      set_index df_norm (index d);;
      mret df_norm
  end.
End Normalization.

(** ** Correlation tables *)

Abbreviation CorrFrame := (DataFrame (list string) float).

Definition fabs (x : float) : float :=
  match x with
  | Fin q => Fin (Qabs q)
  | PosInf | NegInf => PosInf
  | NaN => NaN
  end.

(** [pd.DataFrame(index=..., columns=...)]: every cell missing. *)
Definition empty_frame (idx cols : list string) : CorrFrame :=
  {| index := idx; columns := cols;
     values := replicate (length idx) (replicate (length cols) NaN) |}.

(** [frame.loc[r, c] = v]: every cell whose row is labelled [r] and whose
    column is labelled [c] is set.  (The labels used below come from the
    frame's own axes, so the frame is never enlarged.) *)
Definition loc_set (r c : string) (v : float) (df : CorrFrame) : CorrFrame :=
  {| index := index df; columns := columns df;
     values :=
       zip_with (λ lab row,
                   if decide (lab = r)
                   then zip_with (λ cl x, if decide (cl = c) then v else x)
                          (columns df) row
                   else row)
         (index df) (values df) |}.

Definition np_abs (df : CorrFrame) : CorrFrame :=
  {| index := index df; columns := columns df;
     values := (λ row : list float, fabs <$> row) <$> values df |}.

(** A loop whose body may raise. *)
Fixpoint for_each {S A} (l : list A) (body : S → A → result S) (s : S)
    : result S :=
  match l with
  | [] => Ok s
  | x :: l' => s' ← body s x; for_each l' body s'
  end.

Definition dict_getitem {V} (d : gmap string V) (key : string) : result V :=
  match d !! key with Some v => Ok v | None => Raise (KeyError key) end.

(** The local variables of [corr_table] that the loops change; [cell] is
    unbound until the loop over the cell types binds it. *)
Record corr_locals := {
  p_corr_per_cell : CorrFrame;
  p_corr_per_sample : CorrFrame;
  s_corr_per_cell : CorrFrame;
  s_corr_per_sample : CorrFrame;
  cell : option string
}.

Section Correlation.
(** [pearsonr(x, y)[0]] and [spearmanr(x, y)[0]] of scipy. *)
Variable pearsonr spearmanr : list Q → list Q → result float.

Definition corr_of (corr : list Q → list Q → result float)
    (results : gmap string Table) (true_freqs : Table)
    (method cell : string) : result float :=
  res ← dict_getitem results method;
  x ← getitem res cell;
  y ← getitem true_freqs cell;
  corr x y.

Definition per_cell_body (results : gmap string Table) (true_freqs : Table)
    (method : string) (st : corr_locals) (cell' : string)
    : result corr_locals :=
  p ← corr_of pearsonr results true_freqs method cell';
  let p_cell := loc_set cell' method p (p_corr_per_cell st) in
  s ← corr_of spearmanr results true_freqs method cell';
  let s_cell := loc_set cell' method s (s_corr_per_cell st) in
  Ok {| p_corr_per_cell := p_cell;
        p_corr_per_sample := p_corr_per_sample st;
        s_corr_per_cell := s_cell;
        s_corr_per_sample := s_corr_per_sample st;
        cell := Some cell' |}.

Definition per_sample_body (results : gmap string Table) (true_freqs : Table)
    (method : string) (st : corr_locals) (i : nat) : result corr_locals :=
  match cell st with
  | None => Raise (UnboundLocalError "cell")
  | Some cell' =>
      p ← corr_of pearsonr results true_freqs method cell';
      let p_sample :=
        loc_set (index true_freqs !!! i) method p (p_corr_per_sample st) in
      s ← corr_of spearmanr results true_freqs method cell';
      let s_sample :=
        loc_set (index true_freqs !!! i) method s (s_corr_per_sample st) in
      Ok {| p_corr_per_cell := p_corr_per_cell st;
            p_corr_per_sample := p_sample;
            s_corr_per_cell := s_corr_per_cell st;
            s_corr_per_sample := s_sample;
            cell := Some cell' |}
  end.

Definition per_method_body (results : gmap string Table)
    (cell_types : list string) (true_freqs : Table)
    (st : corr_locals) (method : string) : result corr_locals :=
  st ← for_each cell_types (per_cell_body results true_freqs method) st;
  for_each (seq 0 (length (index true_freqs)))
    (per_sample_body results true_freqs method) st.

Definition corr_table (methods : list string) (results : gmap string Table)
    (cell_types : list string) (true_freqs : Table)
    : result (CorrFrame * CorrFrame * CorrFrame * CorrFrame) :=
  let st := {| p_corr_per_cell := empty_frame cell_types methods;
               p_corr_per_sample := empty_frame (index true_freqs) methods;
               s_corr_per_cell := empty_frame cell_types methods;
               s_corr_per_sample := empty_frame (index true_freqs) methods;
               cell := None |} in
  st ← for_each methods (per_method_body results cell_types true_freqs) st;
  Ok (np_abs (p_corr_per_cell st), np_abs (p_corr_per_sample st),
      np_abs (s_corr_per_cell st), np_abs (s_corr_per_sample st)).

(** What holds of a per-sample table between two turns of the loop over the
    methods: under every column of a method already dealt with, every row
    holds the coefficient of that method for the last cell type. *)
Definition per_sample_filled (corr : list Q → list Q → result float)
    (results : gmap string Table) (cell_types : list string)
    (true_freqs : Table) (dealt : list string) (f : CorrFrame) : Prop :=
  rectangular f ∧ index f = index true_freqs ∧
  ∀ i j m,
    (i < length (index true_freqs))%nat →
    columns f !! j = Some m → m ∈ dealt →
    ∃ c v, last cell_types = Some c ∧
           corr_of corr results true_freqs m c = Ok v ∧
           cell_at f i j = Some v.

Definition corr_invariant (results : gmap string Table)
    (cell_types : list string) (true_freqs : Table) (methods : list string)
    (dealt : list string) (st : corr_locals) : Prop :=
  per_sample_filled pearsonr results cell_types true_freqs dealt
    (p_corr_per_sample st) ∧
  per_sample_filled spearmanr results cell_types true_freqs dealt
    (s_corr_per_sample st) ∧
  columns (p_corr_per_sample st) = methods ∧
  columns (s_corr_per_sample st) = methods ∧
  (cell st = None ∨ cell st = last cell_types).

End Correlation.

(** ** Long-format pairing of estimates and truth *)

(** The names bound at the top level of the module: it imports nothing
    there, so these are the functions it defines. *)
Definition module_globals : list string :=
  ["read_pancancer_rna_file"; "read_lm22_file"; "df_normalization";
   "keep_common_genes"; "find_up_down_genes_from_sig";
   "get_top_ranked_genes_from_sig"; "variance_threshold_selector";
   "read_ssGSEA_up_genes"; "read_custom_geneset"; "corr_table";
   "corr_mean_std"; "flatten_corr_per_cell"; "predicted_truth_bycell"].

(** The built-in names the function uses. *)
Definition builtins : list string := ["list"; "len"; "range"].

(** A name that is not local is looked up in the module, then among the
    built-ins. *)
Definition resolve (locals : list string) (name : string) : result () :=
  if decide (name ∈ locals ++ module_globals ++ builtins) then Ok ()
  else Raise (NameError name).

(** The long table: the three columns, filled from three lists. *)
Record LongFrame := {
  long_columns : list string;
  method_fractions : list Q;
  true_fractions : list Q;
  cell_list : list string
}.

(** [pd.concat([a, b])]: the rows of [a], then those of [b]. *)
Definition concat_frames (a b : Table) : Table :=
  {| index := index a ++ index b; columns := columns a;
     values := values a ++ values b |}.

Definition predicted_truth_bycell (method : string)
    (method_freqs exp_freqs : Table) (cell_types : list string)
    : result LongFrame :=
  a ← getitem_columns method_freqs cell_types;
  b ← getitem_columns exp_freqs cell_types;
  let df := concat_frames a b in
  let n := length (index exp_freqs) in
  (if decide (length (index df) = n + n)%nat then Ok ()
   else Raise (ValueError "Length of values does not match length of index"));;
  resolve ["method"; "method_freqs"; "exp_freqs"; "cell_types"; "pd"; "df"]
    "np";;
  lists ←
    for_each cell_types
      (λ '(method_fractions, true_fractions, cell_list) cell,
         m ← getitem method_freqs cell;
         t ← getitem exp_freqs cell;
         Ok (method_fractions ++ m, true_fractions ++ t,
             cell_list ++ replicate n cell))
      ([], [], []);
  let '(method_fractions, true_fractions, cell_list) := lists in
  let rows_ := (n * length cell_types)%nat in
  if decide (length method_fractions = rows_ ∧ length true_fractions = rows_)
  then Ok {| long_columns := [method; "Ground truth"; "Cell type"];
             method_fractions := method_fractions;
             true_fractions := true_fractions;
             cell_list := cell_list |}
  else Raise (ValueError "Length of values does not match length of index").

(** ** The signature-matrix reader *)

(** [frame.set_index([key])] on a freshly parsed frame: the column [key]
    becomes the row labels and leaves the columns. *)
Definition raw_set_index (key : string) (f : Readers.RawFrame)
    : result Readers.ExprFrame :=
  match Readers.col_pos key (Readers.raw_columns f) with
  | None => Raise (KeyError key)
  | Some k =>
      Ok {| Readers.expr_index :=
              (λ r, default (Readers.Text "") (r !! k)) <$> Readers.raw_rows f;
            Readers.expr_columns := delete k (Readers.raw_columns f);
            Readers.expr_rows := delete k <$> Readers.raw_rows f |}
  end.

(** The first header is overwritten with 'Hugo_Symbol', whatever it was, and
    that column becomes the row labels.  ([pd.read_csv] refuses a file
    without columns, with a [ValueError] of its own.) *)
Definition read_lm22_file (lm22_file_path : string)
    : prog Readers.World Readers.ExprFrame :=
  lm22 ← Readers.read_csv lm22_file_path;
  match Readers.raw_columns lm22 with
  | [] => raise (ValueError "No columns to parse from file")
  | _ :: others =>
      let new_column_names := "Hugo_Symbol" :: others in
      let lm22 := {| Readers.raw_columns := new_column_names;
                     Readers.raw_rows := Readers.raw_rows lm22 |} in
      lift (raw_set_index "Hugo_Symbol" lm22)
  end.

(** ** Gene-set readers *)

Module GeneSets.

(** A parsed gene-set file: the header, and rows of cells that hold a name
    or are missing ([None], the NaN of pandas).  [read_csv] renames repeated
    header names, so the column names are distinct. *)
Record CsvFrame := {
  csv_columns : list string;
  csv_rows : list (list (option string))
}.

Definition read_csv (fs : gmap string CsvFrame) (path : string)
    : result CsvFrame :=
  match fs !! path with
  | Some f => Ok f
  | None => Raise (FileNotFoundError path)
  end.

(** [frame[name]]: the cells under the column [name]. *)
Definition csv_getitem (f : CsvFrame) (name : string)
    : result (list (option string)) :=
  match column_pos name (csv_columns f) with
  | Some j => Ok ((λ row, default None (row !! j)) <$> csv_rows f)
  | None => Raise (KeyError name)
  end.

(** [series.unique()]: the values in the order of their first appearance. *)
Fixpoint unique {A} `{EqDecision A} (l : list A) : list A :=
  match l with
  | [] => []
  | x :: l' => x :: filter (λ y, y ≠ x) (unique l')
  end.

(** [series == cell]: a missing value is equal to nothing, not even to
    itself. *)
Definition series_eq (cell : option string) (x : option string) : bool :=
  match cell, x with
  | Some c, Some y => bool_decide (c = y)
  | _, _ => false
  end.

Definition default_filepath : string := "data/Gene_sets.csv".

(** One key per cell type met in the column 'Cell type' (the missing value
    among them, when a row has none); under it, the column 'Symbol' of the
    rows of that cell type. *)
Definition read_ssGSEA_up_genes (fs : gmap string CsvFrame)
    (filepath : string)
    : result (gmap (option string) (list (option string))) :=
  gene_sets ← read_csv fs filepath;
  cell_types ← csv_getitem gene_sets "Cell type";
  for_each (unique cell_types)
    (λ up_genes cell,
       cell_type ← csv_getitem gene_sets "Cell type";
       symbol ← csv_getitem gene_sets "Symbol";
       Ok (<[cell := boolean_select (series_eq cell <$> cell_type) symbol]>
             up_genes))
    ∅.

(** [list(series.dropna())]. *)
Definition dropna (col : list (option string)) : list string :=
  omap id col.

(** One key per column; under it the cells of the column that are not
    missing. *)
Definition read_custom_geneset (fs : gmap string CsvFrame)
    (filepath : string) : result (gmap string (list string)) :=
  gene_sets ← read_csv fs filepath;
  Ok (foldl (fill_one (csv_getitem gene_sets) dropna) ∅
        (unique (csv_columns gene_sets))).

End GeneSets.

(** ** Flattening a per-cell correlation table *)

(** The long table: the three columns 'Method', 'Cell_type' and
    'Correlation'. *)
Record FlatFrame := {
  flat_method : list string;
  flat_cell_type : list string;
  flat_correlation : list float
}.

(** A column assigned to a frame of [n] rows must have [n] entries. *)
Definition check_length {A} (n : nat) (col : list A) : result () :=
  if decide (length col = n) then Ok ()
  else Raise (ValueError "Length of values does not match length of index").

Definition flatten_corr_per_cell (corr_per_cell : CorrFrame)
    : result FlatFrame :=
  let shape0 := length (index corr_per_cell) in
  let shape1 := length (columns corr_per_cell) in
  let rows_ := (shape0 * shape1)%nat in
  let methods := columns corr_per_cell ≫= λ method, replicate shape0 method in
  check_length rows_ methods;;
  let cell_type := mjoin (replicate shape1 (index corr_per_cell)) in
  check_length rows_ cell_type;;
  corr ← for_each (columns corr_per_cell)
            (λ corr method,
               col ← getitem corr_per_cell method; Ok (corr ++ col))
            [];
  check_length rows_ corr;;
  Ok {| flat_method := methods;
        flat_cell_type := cell_type;
        flat_correlation := corr |}.

(** ** What the loops of [corr_table] keep of the per-cell tables *)

(** Under the methods and cell types already dealt with, the per-cell table
    holds the coefficient of the method for the cell type. *)
Definition per_cell_filled (corr : list Q → list Q → result float)
    (results : gmap string Table) (true_freqs : Table)
    (dealt : list (string * string)) (f : CorrFrame) : Prop :=
  rectangular f ∧
  ∀ i j c m,
    index f !! i = Some c → columns f !! j = Some m → (m, c) ∈ dealt →
    ∃ v, corr_of corr results true_freqs m c = Ok v ∧ cell_at f i j = Some v.

(** ** Example inputs *)

Definition no_str (q : Q) : string := "".

Definition rna_file : Readers.RawFrame :=
  {| Readers.raw_columns := ["Hugo_Symbol"; "Entrez_Gene_Id"; "patient1"];
     Readers.raw_rows :=
       [[Readers.Text "TP53"; Readers.Num 7157; Readers.Num (3 # 2)]] |}.
Definition one_file : Readers.World :=
  {| Readers.files := {[ "rna.tsv" := rna_file ]}; Readers.reads := [] |}.

Definition sig_example : Table :=
  {| index := ["g1"; "g2"; "g3"];
     columns := ["A"; "B"; "C"];
     values := [[1; 1; 1]; [1; 10; 2]; [0; 0; 5]]%Q |}.

Definition rna_example : Table :=
  {| index := ["TP53"; "BRCA1"; "EGFR"];
     columns := ["patient1"; "patient2"];
     values := [[1; 2]; [3; 4]; [5; 6]]%Q |}.
Definition sig_shared_example : Table :=
  {| index := ["EGFR"; "MYC"; "BRCA1"];
     columns := ["B cells"];
     values := [[7]; [8]; [9]]%Q |}.
Definition rna_duplicates : Table :=
  {| index := ["a"; "a"; "b"];
     columns := ["patient1"];
     values := [[1]; [2]; [3]]%Q |}.
Definition sig_no_duplicates : Table :=
  {| index := ["a"; "b"];
     columns := ["B cells"];
     values := [[4]; [5]]%Q |}.

Definition rank_example : Table :=
  {| index := ["g1"; "g2"; "g3"];
     columns := ["category"];
     values := [[5]; [10]; [1]]%Q |}.
Definition tie_example : Table :=
  {| index := ["g1"; "g2"];
     columns := ["category"];
     values := [[5]; [5]]%Q |}.
Definition ties_example : Table :=
  {| index := ["g1"; "g2"; "g3"; "g4"; "g5"; "g6"; "g7"; "g8"; "g9"; "g10";
               "g11"; "g12"; "g13"; "g14"; "g15"; "g16"; "g17"; "g18"];
     columns := ["category"];
     values := replicate 18 [5%Q] |}.


Definition frame_example : Frame :=
  {| index := Labels ["g1"; "g2"];
     columns := Labels ["s1"; "s2"; "s3"];
     values := [[1; 2; 3]; [4; 4; 9]]%Q |}.
Definition empty_frame_example : Frame :=
  {| index := Labels []; columns := Labels ["s1"]; values := [] |}.

(** A stand-in for the two correlation coefficients: any function of the
    two series would do. *)
Definition dot_product (x y : list Q) : result float :=
  Ok (Fin (sum_Q (zip_with Qmult x y))).
Definition sum_difference (x y : list Q) : result float :=
  Ok (Fin (sum_Q x - sum_Q y)).
Definition truth_example : Table :=
  {| index := ["s1"; "s2"]; columns := ["A"; "B"];
     values := [[1; 2]; [3; 4]]%Q |}.
Definition results_example : gmap string Table :=
  {[ "m1" := {| index := ["s1"; "s2"]; columns := ["A"; "B"];
                values := [[1; 1]; [1; 1]]%Q |} ]}.
Definition corr_example_out
    : CorrFrame * CorrFrame * CorrFrame * CorrFrame :=
  Eval vm_compute in
    match corr_table dot_product sum_difference ["m1"] results_example
            ["A"; "B"] truth_example with
    | Ok out => out
    | Raise _ =>
        (empty_frame [] [], empty_frame [] [], empty_frame [] [],
         empty_frame [] [])
    end.

Definition lm22_file : Readers.RawFrame :=
  {| Readers.raw_columns := ["Gene symbol"; "B cells"; "T cells"];
     Readers.raw_rows :=
       [[Readers.Text "ABCB4"; Readers.Num 555; Readers.Num 10];
        [Readers.Text "ABCB9"; Readers.Num 15; Readers.Num 20]] |}.
Definition lm22_world : Readers.World :=
  {| Readers.files := {[ "LM22.txt" := lm22_file ]}; Readers.reads := [] |}.
Definition named_sets_file : GeneSets.CsvFrame :=
  {| GeneSets.csv_columns := ["Cell type"; "Symbol"];
     GeneSets.csv_rows :=
       [[Some "B cells"; Some "CD19"]; [Some "T cells"; Some "CD3E"];
        [None; Some "ACTB"]; [Some "B cells"; Some "MS4A1"]] |}.
Definition columnar_sets_file : GeneSets.CsvFrame :=
  {| GeneSets.csv_columns := ["B cells"; "T cells"];
     GeneSets.csv_rows :=
       [[Some "CD19"; Some "CD3E"]; [Some "MS4A1"; None]] |}.

(** * Properties *)

(** ** Reading an expression table with an unsupported identifier *)

Section ReadersFacts.
Import Readers.
Variable py_str : Q → string.

Lemma columns_astype_str_columns names f f' :
  columns_astype_str py_str names f = Ok f' → raw_columns f' = raw_columns f.
Proof.
  revert f. induction names as [|n names IH]; intros f; simpl.
  - by intros [= <-].
  - destruct (col_pos n (raw_columns f)) as [j|]; [|done].
    intros Hf. by rewrite (IH _ Hf).
Qed.

Lemma col_pos_is_Some name cols : name ∈ cols → is_Some (col_pos name cols).
Proof.
  induction cols as [|c cols IH]; [by intros ?%elem_of_nil|].
  intros Hin. simpl. case_decide; [by eexists|].
  apply elem_of_cons in Hin as [->|Hin]; [done|].
  destruct (IH Hin) as [j ->]. by eexists.
Qed.

Lemma columns_astype_str_Ok names f :
  Forall (λ n, n ∈ raw_columns f) names →
  is_ok (columns_astype_str py_str names f) = true.
Proof.
  revert f. induction names as [|n names IH]; intros f Hall; [done|].
  apply Forall_cons in Hall as [Hn Hall]. simpl.
  destruct (col_pos_is_Some _ _ Hn) as [j ->]. by apply IH.
Qed.

End ReadersFacts.

(** C7 (as amended): with an identifier that is neither 'hugo' nor 'entrez'
    the reader never returns a table, and it fails only after the file has
    been handed to the parser: the read is logged before the failure.  When
    the file exists and has the two identifier columns, the failure is the
    invalid-argument [ValueError]; when there is no such file, it is the
    error of the read itself. *)
Theorem read_pancancer_rna_file_bad_identifier
    (py_str : Q → string) (path identifier : string) (w : Readers.World) :
  identifier ≠ "hugo" → identifier ≠ "entrez" →
  ∃ e,
    Readers.read_pancancer_rna_file py_str path identifier w
    = (Raise e, {| Readers.files := Readers.files w;
                   Readers.reads := Readers.reads w ++ [path] |}) ∧
    (∀ f, Readers.files w !! path = Some f →
          "Hugo_Symbol" ∈ Readers.raw_columns f →
          "Entrez_Gene_Id" ∈ Readers.raw_columns f →
          e = ValueError "gene identifier must be set to 'hugo' or 'entrez'") ∧
    (Readers.files w !! path = None → e = FileNotFoundError path).
Proof.
  intros Hh He.
  unfold Readers.read_pancancer_rna_file, Readers.read_csv, mbind, prog_bind.
  destruct (Readers.files w !! path) as [f|] eqn:Hf.
  - unfold lift.
    destruct (Readers.columns_astype_str py_str _ f) as [f'|e] eqn:Hcols.
    + rewrite !decide_False by done. eexists. split; [done|].
      split; [done|]. done.
    + exists e. split; [done|]. split; [|done].
      intros f0 [= <-] H1 H2.
      assert (is_ok (Readers.columns_astype_str py_str
                ["Hugo_Symbol"; "Entrez_Gene_Id"] f) = true) as Hok.
      { apply columns_astype_str_Ok. by repeat constructor. }
      by rewrite Hcols in Hok.
  - eexists. split; [done|]. split; [done|]. done.
Qed.

Lemma read_pancancer_rna_file_bad_identifier_witness :
  ∃ e,
    Readers.read_pancancer_rna_file no_str "rna.tsv" "ensembl" one_file
    = (Raise e, {| Readers.files := Readers.files one_file;
                   Readers.reads := Readers.reads one_file ++ ["rna.tsv"] |}) ∧
    (∀ f, Readers.files one_file !! "rna.tsv" = Some f →
          "Hugo_Symbol" ∈ Readers.raw_columns f →
          "Entrez_Gene_Id" ∈ Readers.raw_columns f →
          e = ValueError "gene identifier must be set to 'hugo' or 'entrez'") ∧
    (Readers.files one_file !! "rna.tsv" = None →
     e = FileNotFoundError "rna.tsv").
Proof.
  apply (read_pancancer_rna_file_bad_identifier no_str "rna.tsv" "ensembl"
           one_file); by vm_compute.
Defined.

(** C7 (as stated) fails: on a world holding the file, the call with the
    identifier 'ensembl' does raise the [ValueError], but the file has been
    read by then. *)
Lemma read_pancancer_rna_file_reads_first :
  ∃ w',
    Readers.read_pancancer_rna_file no_str "rna.tsv" "ensembl" one_file
    = (Raise (ValueError "gene identifier must be set to 'hugo' or 'entrez'"),
       w') ∧
    Readers.reads one_file = [] ∧
    Readers.reads w' = ["rna.tsv"].
Proof. eexists. split; [reflexivity|]. by split. Qed.

(** ** Normalisation with an unsupported method *)

(** C10: with a [scaling] that is neither 'zscore' nor 'minmax' no branch
    binds [df_norm]; the function returns no table and raises no
    [ValueError]: it fails with the unbound-local error at the first use of
    [df_norm], and the store is as it was. *)
Theorem df_normalization_unbound_local
    (fsqrt : Q → Q) (df : ref) (scaling : string) (axis : Z) (h : store) :
  scaling ≠ "zscore" → scaling ≠ "minmax" →
  df_normalization fsqrt df scaling axis h
  = (Raise (UnboundLocalError "df_norm"), h).
Proof.
  intros Hz Hm. unfold df_normalization.
  rewrite !decide_False by done. done.
Qed.

Lemma df_normalization_unbound_local_witness :
  df_normalization (λ x, x) 1%positive "robust" 0 ∅
  = (Raise (UnboundLocalError "df_norm"), ∅).
Proof.
  apply (df_normalization_unbound_local (λ x, x) 1%positive "robust" 0 ∅);
    by vm_compute.
Defined.

(** ** The long-format pairing never gets built *)

(** C6 (the code departs from it): [np] is bound neither in the function
    nor in the module, so whatever the arguments the call raises before the
    long table is built; no table is ever returned. *)
Theorem predicted_truth_bycell_never_returns
    (method : string) (method_freqs exp_freqs : Table)
    (cell_types : list string) :
  ∃ e, predicted_truth_bycell method method_freqs exp_freqs cell_types
       = Raise e.
Proof.
  unfold predicted_truth_bycell.
  destruct (getitem_columns method_freqs cell_types) as [a|e]; [|by eexists].
  destruct (getitem_columns exp_freqs cell_types) as [b|e]; [|by eexists].
  simpl. case_decide; by eexists.
Qed.

(** ** Facts about lists and frames *)

Section ListFacts.
Context {A : Type}.


Lemma elem_of_boolean_select (mask : list bool) (l : list A) (x : A) :
  x ∈ boolean_select mask l ↔ ∃ i, l !! i = Some x ∧ mask !! i = Some true.
Proof.
  revert l. induction mask as [|b mask IH]; intros [|y l]; simpl.
  - split; [by intros ?%elem_of_nil | by intros (i & ? & ?)].
  - split; [by intros ?%elem_of_nil | by intros (i & ? & ?)].
  - split; [by intros ?%elem_of_nil | by intros (i & ? & ?)].
  - destruct b.
    + rewrite elem_of_cons, IH. split.
      * intros [->|(i & ? & ?)]; [by exists 0%nat | by exists (S i)].
      * intros ([|i] & Hl & Hm); simplify_eq/=; [by left | right; eauto].
    + rewrite IH. split.
      * intros (i & ? & ?). by exists (S i).
      * intros ([|i] & Hl & Hm); simplify_eq/=. eauto.
Qed.

Lemma column_pos_NoDup (cols : list string) (j : nat) (c : string) :
  NoDup cols → cols !! j = Some c → column_pos c cols = Some j.
Proof.
  intros Hnd Hj. unfold column_pos.
  assert (list_find (λ c', c' = c) cols = Some (j, c)) as ->; [|done].
  apply list_find_Some. split_and!; [done..|].
  intros i y Hi Hlt ->. pose proof (NoDup_lookup _ _ _ _ Hnd Hi Hj). lia.
Qed.

Lemma column_lookup `{Inhabited A} (j i : nat) (X : list (list A)) (row : list A) :
  X !! i = Some row → column j X !! i = Some (row !!! j).
Proof. intros Hi. unfold column. by rewrite list_lookup_fmap, Hi. Qed.

Lemma length_column `{Inhabited A} (j : nat) (X : list (list A)) :
  length (column j X) = length X.
Proof. unfold column. by rewrite length_fmap. Qed.

End ListFacts.

Lemma getitem_NoDup {V} `{Inhabited V} (df : DataFrame (list string) V) j c :
  NoDup (columns df) → columns df !! j = Some c →
  getitem df c = Ok (column j (values df)).
Proof. intros Hnd Hj. unfold getitem. by rewrite (column_pos_NoDup _ j). Qed.

(** The dictionaries built by a loop over the column labels. *)
Section DictLoops.
Context {A B C : Type}.
Variable F : string → result A.
Variable U : A → B.
Variable D : A → C.

Abbreviation pair_body := (fill_two F U D).

Lemma foldl_pair_body_notin cols acc c :
  c ∉ cols →
  (foldl pair_body acc cols).1 !! c = acc.1 !! c ∧
  (foldl pair_body acc cols).2 !! c = acc.2 !! c.
Proof.
  revert acc. induction cols as [|x cols IH]; intros [up down] Hc; [done|].
  apply not_elem_of_cons in Hc as [Hne Hc]. cbn [foldl].
  destruct (IH (pair_body (up, down) x) Hc) as [-> ->].
  unfold fill_two. destruct (F x); simpl; [|done].
  by rewrite !lookup_insert_ne.
Qed.

Lemma foldl_pair_body_in cols acc c col :
  c ∈ cols → F c = Ok col →
  (foldl pair_body acc cols).1 !! c = Some (U col) ∧
  (foldl pair_body acc cols).2 !! c = Some (D col).
Proof.
  intros Hin HF. revert acc.
  induction cols as [|x cols IH]; intros [up down]; [by apply elem_of_nil in Hin|].
  cbn [foldl]. destruct (decide (c ∈ cols)) as [Hc|Hc]; [by apply IH|].
  apply elem_of_cons in Hin as [->|?]; [|done].
  destruct (foldl_pair_body_notin cols (pair_body (up, down) x) x Hc)
    as [-> ->].
  unfold fill_two. rewrite HF. simpl. by rewrite !lookup_insert_eq.
Qed.

Abbreviation single_body := (fill_one F U).

Lemma foldl_single_body_notin cols acc c :
  c ∉ cols → foldl single_body acc cols !! c = acc !! c.
Proof.
  revert acc. induction cols as [|x cols IH]; intros acc Hc; [done|].
  apply not_elem_of_cons in Hc as [Hne Hc]. cbn [foldl].
  rewrite (IH _ Hc). unfold fill_one. destruct (F x); [|done].
  by rewrite lookup_insert_ne.
Qed.

Lemma foldl_single_body_in cols acc c col :
  c ∈ cols → F c = Ok col →
  foldl single_body acc cols !! c = Some (U col).
Proof.
  intros Hin HF. revert acc.
  induction cols as [|x cols IH]; intros acc; [by apply elem_of_nil in Hin|].
  cbn [foldl]. destruct (decide (c ∈ cols)) as [Hc|Hc]; [by apply IH|].
  apply elem_of_cons in Hin as [->|?]; [|done].
  rewrite (foldl_single_body_notin cols _ x Hc).
  unfold fill_one. rewrite HF. by rewrite lookup_insert_eq.
Qed.

End DictLoops.

(** ** Up- and down-regulated genes *)


Lemma Qltb_true_iff (x y : Q) : Qltb x y = true ↔ (x < y)%Q.
Proof.
  unfold Qltb. rewrite negb_true_iff. split.
  - intros Hb. apply Qnot_le_lt. intros Hle.
    apply Qle_bool_iff in Hle. congruence.
  - intros Hlt. destruct (Qle_bool y x) eqn:E; [|done].
    apply Qle_bool_iff in E. by apply Qlt_not_le in Hlt.
Qed.




(** The cell of the frame of ratios. *)
Lemma divide_lookup (sig_df : Table) (i j : nat) (row : list Q) :
  values sig_df !! i = Some row → (j < length row)%nat →
  column j (values (divide sig_df (median <$> values sig_df))) !! i
  = Some (fdiv (row !!! j) (median row)).
Proof.
  intros Hi Hj. simpl.
  erewrite column_lookup; last first.
  { rewrite lookup_zip_with, Hi. simpl. rewrite list_lookup_fmap, Hi. done. }
  by rewrite (list_lookup_total_fmap _ (Inhabited0 := Q_inhabited)).
Qed.





(** ** Genes shared by two tables *)

Lemma string_leb_cons a1 s1 a2 s2 :
  String.leb (String a1 s1) (String a2 s2) = true ↔
  (Stdlib.Strings.Ascii.N_of_ascii a1 < Stdlib.Strings.Ascii.N_of_ascii a2)%N
  ∨ (a1 = a2 ∧ String.leb s1 s2 = true).
Proof.
  unfold String.leb. simpl. unfold Stdlib.Strings.Ascii.compare.
  destruct (N.compare_spec (Stdlib.Strings.Ascii.N_of_ascii a1)
              (Stdlib.Strings.Ascii.N_of_ascii a2)) as [Heq|Hlt|Hgt].
  - assert (a1 = a2) as ->.
    { rewrite <-(Stdlib.Strings.Ascii.ascii_N_embedding a1),
        <-(Stdlib.Strings.Ascii.ascii_N_embedding a2).
      by rewrite Heq. }
    split; [by right|]. intros [?|[_ ?]]; [lia|done].
  - split; [by left|done].
  - split; [done|]. intros [?|[-> _]]; lia.
Qed.

Global Instance string_le_total : Total string_le.
Proof. intros s1 s2. apply String.leb_total. Qed.

Global Instance string_le_antisymm : AntiSymm (=) string_le.
Proof. intros s1 s2. apply String.leb_antisym. Qed.

Global Instance string_le_trans : Transitive string_le.
Proof.
  unfold string_le. intros s1.
  induction s1 as [|a1 s1 IH]; intros [|a2 s2] [|a3 s3]; try done.
  rewrite !string_leb_cons.
  intros [H12|[-> H12]] [H23|[-> H23]]; [left; lia|by left|by left|].
  right. split; [done|]. by eapply IH.
Qed.

Global Instance key_le_total {V} : Total (@key_le V).
Proof. intros r1 r2. apply string_le_total. Qed.
Global Instance key_le_trans {V} : Transitive (@key_le V).
Proof. intros r1 r2 r3. apply string_le_trans. Qed.

Lemma elem_of_merge_inner_index left right g :
  g ∈ merge_inner_index left right ↔ g ∈ left ∧ g ∈ right.
Proof.
  unfold merge_inner_index. rewrite list_elem_of_bind. split.
  - intros (k & Hg & Hk). apply list_elem_of_filter in Hg as [-> Hg]. done.
  - intros [Hl Hr]. exists g. split; [|done]. by apply list_elem_of_filter.
Qed.

Section LocFacts.
Context {V : Type}.
Implicit Types rs : list (string * list V).

Lemma loc_rows_Ok rs labels :
  Forall (λ l, l ∈ rs.*1) labels →
  loc_rows rs labels = Ok (labels ≫= λ l, filter (λ r, r.1 = l) rs).
Proof.
  induction labels as [|l labels IH]; intros Hall; [done|].
  apply Forall_cons in Hall as [Hl Hall]. simpl. rewrite (IH Hall).
  destruct (filter (λ r, r.1 = l) rs) as [|r found] eqn:Hf; [|done].
  apply list_elem_of_fmap in Hl as (r & -> & Hr).
  by destruct (filter_nil_not_elem_of (λ r', r'.1 = r.1) rs r Hf).
Qed.

Lemma filter_key_fmap rs l :
  (filter (λ r, r.1 = l) rs).*1 = filter (λ k, k = l) rs.*1.
Proof.
  induction rs as [|r rs IH]; [done|]. csimpl.
  rewrite !filter_cons. simpl. case_decide; csimpl; by rewrite IH.
Qed.

Lemma located_keys rs labels :
  (labels ≫= λ l, filter (λ r, r.1 = l) rs).*1
  = labels ≫= λ l, filter (λ k, k = l) rs.*1.
Proof.
  induction labels as [|l labels IH]; [done|].
  rewrite !bind_cons, fmap_app, IH. by rewrite filter_key_fmap.
Qed.

Lemma elem_of_located_keys rs labels g :
  g ∈ (labels ≫= λ l, filter (λ r, r.1 = l) rs).*1 ↔ g ∈ labels ∧ g ∈ rs.*1.
Proof.
  rewrite located_keys, list_elem_of_bind. split.
  - intros (l & Hg & Hl). apply list_elem_of_filter in Hg as [-> Hg]. done.
  - intros [Hl Hr]. exists g. split; [|done]. by apply list_elem_of_filter.
Qed.

Lemma located_sub rs labels r :
  r ∈ (labels ≫= λ l, filter (λ r, r.1 = l) rs) → r ∈ rs.
Proof.
  rewrite list_elem_of_bind. intros (l & Hr & _).
  by apply list_elem_of_filter in Hr as [_ ?].
Qed.

End LocFacts.

Lemma filter_eq_notin (l : list string) x :
  x ∉ l → filter (λ k, k = x) l = [].
Proof.
  induction l as [|y l IH]; [done|].
  intros [Hne Hx]%not_elem_of_cons.
  rewrite filter_cons_False by done. by apply IH.
Qed.

Lemma filter_eq_NoDup (l : list string) x :
  NoDup l → x ∈ l → filter (λ k, k = x) l = [x].
Proof.
  induction 1 as [|y l Hy Hnd IH]; [by intros ?%elem_of_nil|].
  intros Hx. destruct (decide (y = x)) as [->|Hne].
  - rewrite filter_cons_True by done. by rewrite filter_eq_notin.
  - rewrite filter_cons_False by done.
    apply elem_of_cons in Hx as [->|Hx]; [done|]. by apply IH.
Qed.

Lemma located_keys_NoDup (keys labels : list string) :
  NoDup keys → Forall (λ l, l ∈ keys) labels →
  (labels ≫= λ l, filter (λ k, k = l) keys) = labels.
Proof.
  intros Hnd. induction 1 as [|l labels Hl Hall IH]; [done|].
  rewrite bind_cons, IH. by rewrite filter_eq_NoDup.
Qed.

Lemma rows_keys {V} (df : DataFrame (list string) V) :
  rectangular df → (rows df).*1 = index df.
Proof. intros [Hlen _]. apply fst_zip. simpl in Hlen. unfold axis_len, list_axis_len in Hlen. lia. Qed.

Lemma rows_of_rows {V} cols (rs : list (string * list V)) :
  rows (of_rows cols rs) = rs.
Proof. apply zip_fst_snd. Qed.

Lemma sort_index_keys {V} (df : DataFrame (list string) V) :
  index (sort_index df) = (merge_sort key_le (rows df)).*1.
Proof. done. Qed.

Lemma sort_index_sorted {V} (df : DataFrame (list string) V) :
  StronglySorted string_le (index (sort_index df)).
Proof.
  rewrite sort_index_keys.
  apply (StronglySorted_fmap _ key_le); [done|].
  apply StronglySorted_merge_sort; apply _.
Qed.

Lemma sort_index_permutation {V} (df : DataFrame (list string) V) :
  index (sort_index df) ≡ₚ (rows df).*1.
Proof. rewrite sort_index_keys. by rewrite merge_sort_Permutation. Qed.

Lemma loc_shared_Ok (df : Table) (labels : list string) :
  rectangular df → Forall (λ l, l ∈ index df) labels →
  loc df labels
  = Ok (of_rows (columns df)
          (labels ≫= λ l, filter (λ r, r.1 = l) (rows df))).
Proof.
  intros Hrect Hall. unfold loc.
  rewrite loc_rows_Ok; [done|]. by rewrite rows_keys.
Qed.

(** C2 (as amended): the two returned tables have the same set of row keys,
    the keys present in both inputs, each sorted by key, and their rows are
    rows of the inputs; when neither input repeats a row key the two lists
    of keys are equal, so that row [i] is the same gene in both. *)
Theorem keep_common_genes_spec (rna_df sig_df : Table) :
  rectangular rna_df → rectangular sig_df →
  ∃ rna_df_red sig_df_red,
    keep_common_genes rna_df sig_df = Ok (rna_df_red, sig_df_red) ∧
    (∀ g, g ∈ index rna_df_red ↔ g ∈ index rna_df ∧ g ∈ index sig_df) ∧
    (∀ g, g ∈ index sig_df_red ↔ g ∈ index rna_df ∧ g ∈ index sig_df) ∧
    StronglySorted string_le (index rna_df_red) ∧
    StronglySorted string_le (index sig_df_red) ∧
    (∀ r, r ∈ rows rna_df_red → r ∈ rows rna_df) ∧
    (∀ r, r ∈ rows sig_df_red → r ∈ rows sig_df) ∧
    (NoDup (index rna_df) → NoDup (index sig_df) →
     index rna_df_red = index sig_df_red).
Proof.
  intros Hrna Hsig. unfold keep_common_genes.
  set (shared := merge_inner_index (index rna_df) (index sig_df)).
  assert (∀ g, g ∈ shared ↔ g ∈ index rna_df ∧ g ∈ index sig_df) as Hshared.
  { intros g. apply elem_of_merge_inner_index. }
  assert (Forall (λ l, l ∈ index rna_df) shared) as Hall1.
  { apply Forall_forall. intros g Hg. by apply Hshared in Hg as [? _]. }
  assert (Forall (λ l, l ∈ index sig_df) shared) as Hall2.
  { apply Forall_forall. intros g Hg. by apply Hshared in Hg as [_ ?]. }
  rewrite (loc_shared_Ok rna_df shared Hrna Hall1).
  rewrite (loc_shared_Ok sig_df shared Hsig Hall2).
  simpl. eexists _, _. split; [done|].
  split_and!.
  - intros g. rewrite sort_index_permutation, rows_of_rows.
    rewrite elem_of_located_keys, rows_keys, Hshared by done. tauto.
  - intros g. rewrite sort_index_permutation, rows_of_rows.
    rewrite elem_of_located_keys, rows_keys, Hshared by done. tauto.
  - apply sort_index_sorted.
  - apply sort_index_sorted.
  - intros r. unfold sort_index. rewrite !rows_of_rows.
    rewrite merge_sort_Permutation. apply located_sub.
  - intros r. unfold sort_index. rewrite !rows_of_rows.
    rewrite merge_sort_Permutation. apply located_sub.
  - intros Hnd1 Hnd2.
    apply (StronglySorted_unique string_le); try apply sort_index_sorted.
    rewrite !sort_index_permutation, !rows_of_rows, !located_keys.
    rewrite !rows_keys by done.
    by rewrite !located_keys_NoDup.
Qed.

Lemma keep_common_genes_spec_witness :
  ∃ rna_df_red sig_df_red,
    keep_common_genes rna_example sig_shared_example
      = Ok (rna_df_red, sig_df_red) ∧
    (∀ g, g ∈ index rna_df_red ↔
          g ∈ index rna_example ∧ g ∈ index sig_shared_example) ∧
    (∀ g, g ∈ index sig_df_red ↔
          g ∈ index rna_example ∧ g ∈ index sig_shared_example) ∧
    StronglySorted string_le (index rna_df_red) ∧
    StronglySorted string_le (index sig_df_red) ∧
    (∀ r, r ∈ rows rna_df_red → r ∈ rows rna_example) ∧
    (∀ r, r ∈ rows sig_df_red → r ∈ rows sig_shared_example) ∧
    (NoDup (index rna_example) → NoDup (index sig_shared_example) →
     index rna_df_red = index sig_df_red).
Proof.
  apply (keep_common_genes_spec rna_example sig_shared_example);
    (split; [reflexivity | repeat constructor]).
Defined.

(** C2 (as stated) fails when a row key is repeated: with keys [a; a; b] on
    one side and [a; b] on the other, the first returned table has five rows
    and the second three, and their third rows are different genes. *)
Lemma keep_common_genes_duplicates_misaligned :
  ∃ rna_df_red sig_df_red,
    keep_common_genes rna_duplicates sig_no_duplicates
      = Ok (rna_df_red, sig_df_red) ∧
    index rna_df_red = ["a"; "a"; "a"; "a"; "b"] ∧
    index sig_df_red = ["a"; "a"; "b"] ∧
    index rna_df_red !! 2%nat ≠ index sig_df_red !! 2%nat.
Proof. eexists _, _. split; [by vm_compute|]. by split_and!. Qed.

(** ** Top-ranked genes *)

Global Instance at_le_total a : Total (at_le a).
Proof.
  intros i j. unfold at_le.
  destruct (Qlt_le_dec (a !!! i) (a !!! j)) as [Hlt|Hle]; [left|by right].
  by apply Qlt_le_weak.
Qed.

Lemma merge_sort_argsort (a : list Q) (order : list nat) :
  order ≡ₚ seq 0 (length a) →
  merge_sort (at_le a) order ≡ₚ seq 0 (length a) ∧
  Sorted Qle ((λ k, a !!! k) <$> merge_sort (at_le a) order).
Proof.
  intros Hperm. split.
  - by rewrite merge_sort_Permutation.
  - apply (Sorted_fmap _ (at_le a)); [done|].
    apply Sorted_merge_sort; apply _.
Qed.

Lemma argsort_ascending_sorts : argsort_sorts argsort_ascending.
Proof. intros a. by apply merge_sort_argsort. Qed.

Lemma argsort_descending_sorts : argsort_sorts argsort_descending.
Proof. intros a. apply merge_sort_argsort. apply reverse_Permutation. Qed.

Lemma fmap_lookup_total_seq {A} `{Inhabited A} (l : list A) :
  (λ k, l !!! k) <$> seq 0 (length l) = l.
Proof.
  apply list_eq. intros i. rewrite list_lookup_fmap.
  destruct (decide (i < length l)%nat) as [Hi|Hi].
  - rewrite lookup_seq_lt by done. simpl.
    by rewrite list_lookup_lookup_total_lt.
  - rewrite lookup_seq_ge, lookup_ge_None_2 by lia. done.
Qed.

Lemma reverse_lookup_total {A} `{Inhabited A} (l : list A) k :
  (k < length l)%nat → reverse l !!! k = l !!! (length l - S k)%nat.
Proof.
  intros Hk. rewrite !list_lookup_total_alt.
  by rewrite reverse_lookup.
Qed.

Section RankingFacts.
Variable argsort : list Q → list nat.
Hypothesis Hargsort : argsort_sorts argsort.

Lemma nargsort_descending_permutation vals :
  nargsort_descending argsort vals ≡ₚ seq 0 (length vals).
Proof.
  unfold nargsort_descending. rewrite reverse_Permutation.
  destruct (Hargsort (reverse vals)) as [Hperm _].
  rewrite Hperm, length_reverse.
  pose proof (fmap_lookup_total_seq (reverse (seq 0 (length vals)))) as Heq.
  rewrite length_reverse, length_seq in Heq.
  rewrite Heq. apply reverse_Permutation.
Qed.

Lemma nargsort_descending_sorted vals :
  Sorted (flip Qle) ((λ i, vals !!! i) <$> nargsort_descending argsort vals).
Proof.
  unfold nargsort_descending. rewrite fmap_reverse. apply Sorted_reverse.
  destruct (Hargsort (reverse vals)) as [Hperm Hsorted].
  rewrite <-list_fmap_compose.
  erewrite (Forall_fmap_ext_1 _ (λ k, reverse vals !!! k)); [done|].
  apply Forall_forall. intros k Hk.
  rewrite Hperm, length_reverse in Hk. apply elem_of_seq in Hk. simpl.
  rewrite !reverse_lookup_total by (rewrite ?length_seq; lia).
  rewrite length_seq, lookup_total_seq_lt by lia. done.
Qed.

(** On the array [5; 10; 1], reversed to [1; 10; 5], every sort that meets
    the contract answers the same positions: no two cells are equal. *)
Lemma argsort_rank_example : argsort [1; 10; 5]%Q = [0; 2; 1]%nat.
Proof.
  destruct (Hargsort [1; 10; 5]%Q) as [Hperm Hsorted].
  assert (NoDup (argsort [1; 10; 5]%Q)) as Hnd.
  { rewrite Hperm. apply NoDup_seq. }
  assert (∀ k, k ∈ argsort [1; 10; 5]%Q → k ∈ [0; 1; 2]%nat) as Hin.
  { intros k Hk. by rewrite Hperm in Hk. }
  apply Permutation_length in Hperm.
  destruct (argsort [1; 10; 5]%Q) as [|x [|y [|z [|? ?]]]]; try done.
  pose proof (Hin x ltac:(repeat constructor)) as Hx.
  pose proof (Hin y ltac:(repeat constructor)) as Hy.
  pose proof (Hin z ltac:(repeat constructor)) as Hz.
  clear Hin Hperm.
  repeat match goal with
         | H : _ ∈ _ :: _ |- _ => apply elem_of_cons in H as [->|H]
         | H : _ ∈ [] |- _ => by apply elem_of_nil in H
         end;
    first [ reflexivity
          | exfalso; revert Hnd; apply (bool_decide_eq_false_1 _);
            vm_compute; reflexivity
          | exfalso; revert Hsorted; apply (bool_decide_eq_false_1 _);
            vm_compute; reflexivity ].
Qed.

End RankingFacts.

(** C3 (as amended): for the column [c] at position [j] the result lists the
    genes in an order of the rows along which the cells of the column
    descend, cut to the first [sig_size]; the order among rows with equal
    cells is the one given by the sort, of which nothing more is known than
    that it sorts.  On the table of three genes worth 5, 10 and 1 and a
    size of 2, the result is [g2; g1]. *)
Theorem get_top_ranked_genes_from_sig_spec
    (argsort : list Q → list nat) (sig_df : Table) (sig_size j : nat)
    (c : string) :
  argsort_sorts argsort →
  rectangular sig_df → NoDup (columns sig_df) →
  columns sig_df !! j = Some c →
  (∃ order : list nat,
     order ≡ₚ seq 0 (length (index sig_df)) ∧
     Sorted (flip Qle) ((λ i, column j (values sig_df) !!! i) <$> order) ∧
     get_top_ranked_genes_from_sig argsort sig_df sig_size !! c
     = Some (take sig_size ((λ i, index sig_df !!! i) <$> order))) ∧
  get_top_ranked_genes_from_sig argsort rank_example 2
  = {[ "category" := ["g2"; "g1"] ]}.
Proof.
  intros Hargsort [Hlen Hrows] Hnd Hj. split.
  - exists (nargsort_descending argsort (column j (values sig_df))).
    split; [|split].
    + rewrite nargsort_descending_permutation by done.
      by rewrite length_column, Hlen.
    + by apply nargsort_descending_sorted.
    + unfold get_top_ranked_genes_from_sig.
      apply (foldl_single_body_in (getitem sig_df)
               (λ col, take sig_size
                         (sort_values_descending argsort (index sig_df) col))
               (columns sig_df) ∅ c (column j (values sig_df))).
      * by eapply list_elem_of_lookup_2.
      * by apply getitem_NoDup.
  - unfold get_top_ranked_genes_from_sig, fill_one. simpl.
    unfold sort_values_descending, nargsort_descending. simpl.
    change (reverse [5; 10; 1]%Q) with [1; 10; 5]%Q.
    by rewrite argsort_rank_example.
Qed.

Lemma get_top_ranked_genes_from_sig_spec_witness :
  (∃ order : list nat,
     order ≡ₚ seq 0 (length (index sig_example)) ∧
     Sorted (flip Qle)
       ((λ i, column 1 (values sig_example) !!! i) <$> order) ∧
     get_top_ranked_genes_from_sig argsort_ascending sig_example 2 !! "B"
     = Some (take 2 ((λ i, index sig_example !!! i) <$> order))) ∧
  get_top_ranked_genes_from_sig argsort_ascending rank_example 2
  = {[ "category" := ["g2"; "g1"] ]}.
Proof.
  apply (get_top_ranked_genes_from_sig_spec argsort_ascending sig_example
           2 1 "B").
  - apply argsort_ascending_sorts.
  - split; [reflexivity | repeat constructor].
  - apply (bool_decide_unpack _). by vm_compute.
  - reflexivity.
Defined.

(** C3 (as stated) fails on ties: the code asks for no stable sort, and the
    default sort of the library does not keep equal cells in their order.
    On a table of eighteen genes of equal value the list is a rearrangement
    of the genes which is not their row order: the first round of the
    quicksort exchanges equal entries. *)
Lemma get_top_ranked_genes_ties_not_stable :
  Forall (λ row, row = [5%Q]) (values ties_example) ∧
  ∃ l,
    get_top_ranked_genes_from_sig NumpySort.argsort ties_example 50
      !! "category" = Some l ∧
    l ≡ₚ index ties_example ∧
    l ≠ index ties_example.
Proof.
  split; [repeat constructor|].
  eexists. split; [by vm_compute|]. split.
  - apply (bool_decide_unpack _). by vm_compute.
  - apply (bool_decide_unpack _). by vm_compute.
Qed.

(** On two genes of equal value the insertion sort is all there is, and
    the genes keep their row order. *)
Example get_top_ranked_genes_short_tie :
  get_top_ranked_genes_from_sig NumpySort.argsort tie_example 2
    !! "category" = Some ["g1"; "g2"].
Proof. by vm_compute. Qed.

(** ** Transposition *)

Section TransposeFacts.
Context {L V : Type} `{AxisLen L, Inhabited V}.
Implicit Types df : DataFrame L V.

Lemma transpose_values_row (X : list (list V)) (n i : nat) (row : list V) :
  X !! i = Some row → length row = n →
  column i ((λ j, column j X) <$> seq 0 n) = row.
Proof.
  intros Hi Hlen. unfold column at 1. rewrite <-list_fmap_compose.
  rewrite <-(fmap_lookup_total_seq row), Hlen.
  apply Forall_fmap_ext_1, Forall_forall. intros j Hj. simpl.
  rewrite list_lookup_total_alt, (column_lookup j i X row Hi). done.
Qed.

Lemma transpose_involutive df : rectangular df → transpose (transpose df) = df.
Proof.
  intros [Hlen Hrows]. destruct df as [idx cols X]. simpl in *.
  unfold transpose. simpl. f_equal.
  rewrite <-Hlen. rewrite <-(fmap_lookup_total_seq X) at 2.
  apply Forall_fmap_ext_1, Forall_forall. intros i Hi.
  apply elem_of_seq in Hi.
  destruct (lookup_lt_is_Some_2 X i) as [row Hrow]; [lia|].
  rewrite (list_lookup_total_correct _ _ _ Hrow).
  apply transpose_values_row; [done|].
  by apply (Forall_lookup_1 _ _ _ _ Hrows Hrow).
Qed.

End TransposeFacts.

Lemma rectangular_of_rows {V} (cols : list string)
    (rs : list (string * list V)) :
  Forall (λ r, length r.2 = length cols) rs → rectangular (of_rows cols rs).
Proof.
  intros Hall. split; simpl.
  - unfold axis_len, list_axis_len. by rewrite !length_fmap.
  - by apply Forall_fmap.
Qed.

Lemma rows_rectangular {V} (df : DataFrame (list string) V) :
  rectangular df → Forall (λ r, length r.2 = length (columns df)) (rows df).
Proof.
  intros [_ Hrows]. apply Forall_forall. intros [g row] Hin.
  apply elem_of_zip_r in Hin. simpl.
  by apply (proj1 (Forall_forall _ _) Hrows).
Qed.

(** ** Variance threshold *)

Section SupportFacts.
Variable threshold : Q.

Lemma support_labels (vals : list (list Q)) (idx pre : list string) :
  length idx = length vals →
  (λ i, (pre ++ idx) !!! i)
    <$> (filter (λ iv : nat * Q, Qltb threshold iv.2 = true)
           (imap (λ i v, ((length pre + i)%nat, v)) (var <$> vals))).*1
  = (filter (λ r : string * list Q, (threshold < var r.2)%Q) (zip idx vals)).*1.
Proof.
  revert idx pre.
  induction vals as [|row vals IH]; intros [|g idx] pre Hlen; try done.
  simpl in Hlen. rewrite fmap_cons, imap_cons.
  change (zip (g :: idx) (row :: vals)) with ((g, row) :: zip idx vals).
  assert ((imap ((λ i v, ((length pre + i)%nat, v)) ∘ S) (var <$> vals))
          = imap (λ i v, ((length (pre ++ [g]) + i)%nat, v)) (var <$> vals))
    as ->.
  { apply imap_ext. intros i x _. simpl. rewrite length_app. simpl.
    f_equal. lia. }
  pose proof (IH idx (pre ++ [g]) ltac:(lia)) as IH'.
  rewrite <-app_assoc in IH'. simpl in IH'.
  rewrite !filter_cons. simpl.
  destruct (decide (Qltb threshold (var row) = true)) as [Ht|Hf].
  - rewrite decide_True by (by apply Qltb_true_iff).
    csimpl. rewrite IH'. f_equal.
    rewrite Nat.add_0_r. by rewrite list_lookup_total_middle.
  - rewrite decide_False; [done|]. intros Hlt. by apply Qltb_true_iff in Hlt.
Qed.

Lemma forallb_variances (vals : list (list Q)) :
  forallb (λ v, Qle_bool v threshold) (var <$> vals) = true ↔
  Forall (λ row, (var row <= threshold)%Q) vals.
Proof.
  induction vals as [|row vals IH]; [done|].
  csimpl. rewrite Forall_cons, andb_true_iff, IH, Qle_bool_iff. done.
Qed.

End SupportFacts.

Lemma filter_key_NoDup {V} (rs : list (string * list V)) r :
  NoDup rs.*1 → r ∈ rs → filter (λ r', r'.1 = r.1) rs = [r].
Proof.
  induction rs as [|r0 rs IH]; [by intros _ ?%elem_of_nil|].
  csimpl. intros [Hnotin Hnd]%NoDup_cons Hin.
  apply elem_of_cons in Hin as [->|Hin].
  - rewrite filter_cons_True by done. f_equal.
    destruct (filter (λ r', r'.1 = r0.1) rs) as [|r1 l] eqn:Hf; [done|].
    assert (r1 ∈ filter (λ r', r'.1 = r0.1) rs) as Hr1 by (rewrite Hf; left).
    apply list_elem_of_filter in Hr1 as [Hkey Hr1].
    destruct Hnotin. rewrite <-Hkey. by apply list_elem_of_fmap_2.
  - rewrite filter_cons_False; [by apply IH|].
    intros Hkey. destruct Hnotin. rewrite Hkey. by apply list_elem_of_fmap_2.
Qed.

Lemma located_rows_NoDup {V} (rs l : list (string * list V)) :
  NoDup rs.*1 → Forall (λ r, r ∈ rs) l →
  (l.*1 ≫= λ k, filter (λ r, r.1 = k) rs) = l.
Proof.
  intros Hnd. induction 1 as [|r l Hr Hall IH]; [done|].
  csimpl. rewrite IH. by rewrite filter_key_NoDup.
Qed.

Lemma check_threshold_Ok (threshold : Q) :
  (0 <= threshold)%Q → check_threshold threshold = Ok ().
Proof.
  intros Hth. unfold check_threshold. rewrite decide_False; [done|].
  by apply Qle_not_lt.
Qed.

Lemma check_threshold_raises (threshold : Q) :
  (threshold < 0)%Q → ∃ msg, check_threshold threshold = Raise (ValueError msg).
Proof.
  intros Hth. unfold check_threshold. rewrite decide_True by done.
  by eexists.
Qed.

Lemma check_array_Ok (n_samples n_features : nat) :
  n_samples ≠ 0%nat → n_features ≠ 0%nat →
  check_array n_samples n_features = Ok ().
Proof. intros ??. unfold check_array. by rewrite !decide_False. Qed.

Lemma check_array_raises (n_samples n_features : nat) :
  n_samples = 0%nat ∨ n_features = 0%nat →
  ∃ msg, check_array n_samples n_features = Raise (ValueError msg).
Proof.
  intros Hz. unfold check_array.
  repeat case_decide; try by eexists. lia.
Qed.

(** The rows kept by the selector. *)
Lemma selected_rows (data : Table) (threshold : Q) :
  rectangular data → NoDup (index data) →
  loc data
    ((λ i, index data !!! i)
       <$> (filter (λ iv : nat * Q, Qltb threshold iv.2 = true)
              (imap (λ i v, (i, v)) (var <$> values data))).*1)
  = Ok (of_rows (columns data)
          (filter (λ r, (threshold < var r.2)%Q) (rows data))).
Proof.
  intros Hrect Hnd.
  pose proof (support_labels threshold (values data) (index data) []) as Hl.
  simpl in Hl. rewrite Hl by (by destruct Hrect).
  fold (rows data). rewrite loc_shared_Ok; [|done|].
  - rewrite located_rows_NoDup; [done|by rewrite rows_keys|].
    apply Forall_forall. intros r Hr.
    by apply list_elem_of_filter in Hr as [_ ?].
  - apply Forall_forall. intros g Hg.
    apply list_elem_of_fmap in Hg as (r & -> & Hr).
    apply list_elem_of_filter in Hr as [_ Hr].
    rewrite <-(rows_keys data) by done. by apply list_elem_of_fmap_2.
Qed.




(** ** Normalisation *)

Lemma get_Some (h : store) (l : ref) (f : Frame) :
  h !! l = Some f → get l h = (Ok f, h).
Proof. intros Hl. unfold get. by rewrite Hl. Qed.

Lemma fresh_not_Some (h : store) (l : ref) (f : Frame) :
  h !! l = Some f → fresh (dom h) ≠ l.
Proof.
  intros Hl Heq. apply (is_fresh (dom h)). rewrite Heq.
  apply elem_of_dom. by eexists.
Qed.

Lemma insert_fresh_subseteq (h : store) (f : Frame) :
  h ⊆ <[fresh (dom h) := f]> h.
Proof.
  apply insert_subseteq, not_elem_of_dom, is_fresh.
Qed.

(** Giving the frame at [r] the labels of the frame at [df]. *)
Lemma relabel_run (h : store) (df r : ref) (d f : Frame) :
  h !! df = Some d → h !! r = Some f → df ≠ r →
  axis_len (columns d) = axis_len (columns f) →
  axis_len (index d) = axis_len (index f) →
  (d ← get df; set_columns r (columns d);;
   d ← get df; set_index r (index d);; mret r) h
  = (Ok r, <[r := {| index := index d; columns := columns d;
                     values := values f |}]> h).
Proof.
  intros Hdf Hr Hne Hcols Hidx.
  unfold mbind, prog_bind, set_columns, set_index, mbind, prog_bind.
  rewrite (get_Some h df d Hdf), (get_Some h r f Hr).
  rewrite decide_True by done. unfold put.
  rewrite (get_Some _ df d) by (by rewrite lookup_insert_ne).
  rewrite (get_Some _ r _ (lookup_insert_eq _ _ _)). simpl.
  rewrite decide_True by done.
  by rewrite insert_insert_eq.
Qed.

Lemma bind_run {S A B} (m : prog S A) (k : A → prog S B) (s s' : S) (a : A) :
  m s = (Ok a, s') → (m ≫= k) s = k a s'.
Proof. intros Hm. unfold mbind, prog_bind. by rewrite Hm. Qed.

Lemma fit_transform_Ok (d : Frame) :
  axis_len (index d) ≠ 0%nat → axis_len (columns d) ≠ 0%nat →
  fit_transform d
  = Ok {| shape := (axis_len (index d), axis_len (columns d));
          data := map_by_column min_max (values d) |}.
Proof. intros ??. unfold fit_transform. by rewrite check_array_Ok. Qed.

(** The store after a min-max normalisation: the frames that were there are
    untouched, and a new frame holds the result under the labels of the
    input. *)
Lemma df_normalization_minmax_run
    (fsqrt : Q → Q) (h : store) (df : ref) (d : Frame) (axis : Z) :
  h !! df = Some d →
  axis_len (index d) ≠ 0%nat → axis_len (columns d) ≠ 0%nat →
  ∃ r h',
    df_normalization fsqrt df "minmax" axis h = (Ok r, h') ∧
    r ≠ df ∧ h ⊆ h' ∧
    h' !! r
    = Some {| index := index d; columns := columns d;
              values :=
                if decide (axis = 1%Z)
                then values (transpose (DataFrame_of_array
                       {| shape := (axis_len (columns d), axis_len (index d));
                          data := map_by_column min_max
                                    (values (transpose d)) |}))
                else map_by_column min_max (values d) |}.
Proof.
  intros Hdf Hrows Hcols. unfold df_normalization.
  rewrite decide_False by done. rewrite decide_True by done.
  set (l1 := fresh (dom h)).
  assert (l1 ≠ df) as Hl1 by (by eapply fresh_not_Some).
  destruct (decide (axis = 1%Z)) as [->|Hax].
  - set (h1 := <[l1 := transpose d]> h).
    assert (h1 !! df = Some d) as Hdf1 by (by unfold h1; rewrite lookup_insert_ne).
    set (arr := {| shape := (axis_len (columns d), axis_len (index d));
                   data := map_by_column min_max (values (transpose d)) |}).
    set (l2 := fresh (dom h1)).
    assert (l2 ≠ df) as Hl2 by (by eapply fresh_not_Some).
    set (h2 := <[l2 := DataFrame_of_array arr]> h1).
    assert (h2 !! df = Some d) as Hdf2 by (by unfold h2; rewrite lookup_insert_ne).
    set (l3 := fresh (dom h2)).
    assert (l3 ≠ df) as Hl3 by (by eapply fresh_not_Some).
    set (h3 := <[l3 := transpose (DataFrame_of_array arr)]> h2).
    assert (h3 !! df = Some d) as Hdf3 by (by unfold h3; rewrite lookup_insert_ne).
    erewrite bind_run; last first.
    { erewrite bind_run; [|by apply get_Some].
      erewrite bind_run; [|reflexivity]. fold l1 h1.
      erewrite bind_run; [|apply get_Some, lookup_insert_eq].
      erewrite bind_run; last first.
      { unfold lift. rewrite fit_transform_Ok by done. reflexivity. }
      erewrite bind_run; [|reflexivity]. fold arr l2 h2.
      erewrite bind_run; [|apply get_Some, lookup_insert_eq].
      erewrite bind_run; [|reflexivity]. fold l3 h3.
      reflexivity. }
    cbv beta iota. exists l3. eexists. split.
    { apply (relabel_run h3 df l3 d (transpose (DataFrame_of_array arr)));
        [done|apply lookup_insert_eq|done..]. }
    split; [done|]. split; [|by rewrite lookup_insert_eq].
    unfold h3. rewrite insert_insert_eq.
    etrans; [apply insert_fresh_subseteq|]. fold l1 h1.
    etrans; [apply insert_fresh_subseteq|]. fold l2 h2.
    apply insert_fresh_subseteq.
  - set (h1 := <[l1 := d]> h).
    assert (h1 !! df = Some d) as Hdf1 by (by unfold h1; rewrite lookup_insert_ne).
    set (arr := {| shape := (axis_len (index d), axis_len (columns d));
                   data := map_by_column min_max (values d) |}).
    set (l2 := fresh (dom h1)).
    assert (l2 ≠ df) as Hl2 by (by eapply fresh_not_Some).
    set (h2 := <[l2 := DataFrame_of_array arr]> h1).
    assert (h2 !! df = Some d) as Hdf2 by (by unfold h2; rewrite lookup_insert_ne).
    erewrite bind_run; last first.
    { erewrite bind_run; [|by apply get_Some].
      erewrite bind_run; [|reflexivity]. fold l1 h1.
      erewrite bind_run; [|apply get_Some, lookup_insert_eq].
      erewrite bind_run; last first.
      { unfold lift. rewrite fit_transform_Ok by done. reflexivity. }
      erewrite bind_run; [|reflexivity]. fold arr l2 h2.
      reflexivity. }
    cbv beta iota. exists l2. eexists. split.
    { apply (relabel_run h2 df l2 d (DataFrame_of_array arr));
        [done|apply lookup_insert_eq|done..]. }
    split; [done|]. split; [|by rewrite lookup_insert_eq].
    unfold h2. rewrite insert_insert_eq.
    etrans; [apply insert_fresh_subseteq|]. fold l1 h1.
    apply insert_fresh_subseteq.
Qed.

Lemma scale_Ok (fsqrt : Q → Q) (d : Frame) (axis : Z) :
  axis_len (index d) ≠ 0%nat → axis_len (columns d) ≠ 0%nat →
  axis = 0%Z ∨ axis = 1%Z →
  ∃ vals, scale fsqrt d axis
          = Ok {| shape := (axis_len (index d), axis_len (columns d));
                  data := vals |}.
Proof.
  intros ?? [-> | ->]; unfold scale; rewrite check_array_Ok by done; simpl;
    by eexists.
Qed.

Lemma df_normalization_zscore_run
    (fsqrt : Q → Q) (h : store) (df : ref) (d : Frame) (axis : Z) :
  h !! df = Some d →
  axis_len (index d) ≠ 0%nat → axis_len (columns d) ≠ 0%nat →
  axis = 0%Z ∨ axis = 1%Z →
  ∃ r h' vals,
    df_normalization fsqrt df "zscore" axis h = (Ok r, h') ∧
    r ≠ df ∧ h ⊆ h' ∧
    h' !! r
    = Some {| index := index d; columns := columns d; values := vals |}.
Proof.
  intros Hdf Hrows Hcols Hax. unfold df_normalization.
  rewrite decide_True by done.
  destruct (scale_Ok fsqrt d axis Hrows Hcols Hax) as [vals Hscale].
  set (arr := {| shape := (axis_len (index d), axis_len (columns d));
                 data := vals |}) in *.
  set (l1 := fresh (dom h)).
  assert (l1 ≠ df) as Hl1 by (by eapply fresh_not_Some).
  set (h1 := <[l1 := DataFrame_of_array arr]> h).
  assert (h1 !! df = Some d) as Hdf1 by (by unfold h1; rewrite lookup_insert_ne).
  erewrite bind_run; last first.
  { erewrite bind_run; [|by apply get_Some].
    erewrite bind_run; last first.
    { unfold lift. rewrite Hscale. reflexivity. }
    erewrite bind_run; [|reflexivity].
    reflexivity. }
  cbv beta iota. exists l1. eexists. exists vals. split.
  { apply (relabel_run h1 df l1 d (DataFrame_of_array arr));
      [done|apply lookup_insert_eq|done..]. }
  split; [done|]. split; [|by rewrite lookup_insert_eq].
  unfold h1. rewrite insert_insert_eq. apply insert_fresh_subseteq.
Qed.

(** C8 (as amended): on a table with at least one row and one column, for
    'zscore' and 'minmax' and either axis, the call returns a new table whose
    row labels and column labels are those of the input; the input, and
    every other table there was, is left as it was. *)
Theorem df_normalization_labels
    (fsqrt : Q → Q) (h : store) (df : ref) (d : Frame) (scaling : string)
    (axis : Z) :
  h !! df = Some d →
  axis_len (index d) ≠ 0%nat → axis_len (columns d) ≠ 0%nat →
  scaling = "zscore" ∨ scaling = "minmax" →
  axis = 0%Z ∨ axis = 1%Z →
  ∃ r h' d',
    df_normalization fsqrt df scaling axis h = (Ok r, h') ∧
    h' !! r = Some d' ∧
    index d' = index d ∧ columns d' = columns d ∧
    r ≠ df ∧ h' !! df = Some d ∧ h ⊆ h'.
Proof.
  intros Hdf Hrows Hcols [-> | ->] Hax.
  - destruct (df_normalization_zscore_run fsqrt h df d axis)
      as (r & h' & vals & Hrun & Hne & Hsub & Hr); try done.
    exists r, h'. eexists. split; [done|]. split; [done|].
    split; [done|]. split; [done|]. split; [done|]. split; [|done].
    by eapply lookup_weaken.
  - destruct (df_normalization_minmax_run fsqrt h df d axis)
      as (r & h' & Hrun & Hne & Hsub & Hr); try done.
    exists r, h'. eexists. split; [done|]. split; [done|].
    split; [done|]. split; [done|]. split; [done|]. split; [|done].
    by eapply lookup_weaken.
Qed.

Lemma df_normalization_labels_witness :
  ∃ r h' d',
    df_normalization (λ x, x) 1%positive "minmax" 1
      {[ 1%positive := frame_example ]} = (Ok r, h') ∧
    h' !! r = Some d' ∧
    index d' = index frame_example ∧ columns d' = columns frame_example ∧
    r ≠ 1%positive ∧ h' !! 1%positive = Some frame_example ∧
    ({[ 1%positive := frame_example ]} : store) ⊆ h'.
Proof.
  apply (df_normalization_labels (λ x, x) {[ 1%positive := frame_example ]}
           1%positive frame_example "minmax" 1).
  - reflexivity.
  - by vm_compute.
  - by vm_compute.
  - by right.
  - by right.
Defined.

(** C8 (as stated) fails on a table without rows: the library refuses the
    empty array, and no table is returned. *)
Lemma df_normalization_empty_table :
  ∃ msg h',
    df_normalization (λ x, x) 1%positive "minmax" 0
      {[ 1%positive := empty_frame_example ]}
    = (Raise (ValueError msg), h').
Proof. eexists _, _. by vm_compute. Qed.

(** ** Binary64 rounding *)

Section Binary64Facts.
Import Binary64.









































End Binary64Facts.

(** ** Min-max rescaling *)





Section MinMaxFacts.
Import Binary64.









End MinMaxFacts.









(** ** Correlation tables *)

Lemma loc_set_rectangular r c v (f : CorrFrame) :
  rectangular f → rectangular (loc_set r c v f).
Proof.
  intros [Hlen Hrows]. split; simpl.
  - rewrite length_zip_with. unfold axis_len, list_axis_len in *. lia.
  - apply Forall_forall. intros row Hrow.
    apply elem_of_zip_with in Hrow as (lab & row0 & -> & _ & Hrow0).
    pose proof (proj1 (Forall_forall _ _) Hrows _ Hrow0) as Hl.
    unfold axis_len, list_axis_len in *.
    case_decide; [|done]. rewrite length_zip_with. lia.
Qed.

(** The cells set by [frame.loc[r, c] = v] are those of the rows labelled
    [r] under the columns labelled [c]. *)
Lemma loc_set_cell r c v (f : CorrFrame) i j :
  rectangular f →
  cell_at (loc_set r c v f) i j
  = if decide (index f !! i = Some r ∧ columns f !! j = Some c)
    then Some v else cell_at f i j.
Proof.
  intros [Hlen Hrows]. unfold axis_len, list_axis_len in *.
  destruct (decide (index f !! i = Some r ∧ columns f !! j = Some c))
    as [[Hi Hj]|Hn]; unfold cell_at; simpl; rewrite lookup_zip_with.
  - destruct (lookup_lt_is_Some_2 (values f) i) as [row Hrow].
    { rewrite Hlen. by eapply lookup_lt_Some. }
    pose proof (Forall_lookup_1 _ _ _ _ Hrows Hrow) as Hl. simpl in Hl.
    destruct (lookup_lt_is_Some_2 row j) as [x Hx].
    { rewrite Hl. by eapply lookup_lt_Some. }
    rewrite Hi, Hrow. simpl. rewrite decide_True by done.
    rewrite lookup_zip_with, Hj, Hx. simpl. by rewrite decide_True.
  - destruct (index f !! i) as [lab|] eqn:Hlab; simpl.
    + destruct (values f !! i) as [row|] eqn:Hrow; simpl; [|done].
      pose proof (Forall_lookup_1 _ _ _ _ Hrows Hrow) as Hl. simpl in Hl.
      destruct (decide (lab = r)) as [->|Hne]; [|done].
      rewrite lookup_zip_with.
      destruct (columns f !! j) as [cl|] eqn:Hcl; simpl.
      * destruct (row !! j) as [x|]; simpl; [|done].
        rewrite decide_False; [done|]. intros ->. by destruct Hn.
      * apply lookup_ge_None in Hcl. symmetry. apply lookup_ge_None. lia.
    + apply lookup_ge_None in Hlab. symmetry.
      assert (values f !! i = None) as ->; [|done].
      apply lookup_ge_None. lia.
Qed.

Section SetRows.
Variable labels : list string.
Variable m : string.
Variable v : float.

(** The loop over the samples, once the value is known: one assignment per
    position. *)
Abbreviation set_rows := (foldl (λ f k, loc_set (labels !!! k) m v f)).

Lemma set_rows_shape (f : CorrFrame) (l : list nat) :
  rectangular f →
  rectangular (set_rows f l) ∧
  index (set_rows f l) = index f ∧ columns (set_rows f l) = columns f.
Proof.
  revert f. induction l as [|k l IH]; intros f Hrect; [done|].
  simpl. destruct (IH (loc_set (labels !!! k) m v f)) as (? & -> & ->);
    [by apply loc_set_rectangular|done].
Qed.

Lemma set_rows_cell (f : CorrFrame) (l : list nat) i j :
  rectangular f →
  cell_at (set_rows f l) i j
  = if decide (columns f !! j = Some m ∧
               Exists (λ k, index f !! i = Some (labels !!! k)) l)
    then Some v else cell_at f i j.
Proof.
  intros Hrect. induction l as [|k l IH] using rev_ind.
  - simpl. rewrite decide_False; [done|]. intros [_ H]. by apply Exists_nil in H.
  - rewrite foldl_snoc.
    destruct (set_rows_shape f l Hrect) as (Hrect' & Hidx & Hcols).
    rewrite loc_set_cell by done. rewrite Hidx, Hcols, IH.
    destruct (decide (index f !! i = Some (labels !!! k)
                      ∧ columns f !! j = Some m)) as [[Hi Hj]|Hn].
    + rewrite decide_True; [done|]. split; [done|].
      apply Exists_app. right. by constructor.
    + destruct (decide (columns f !! j = Some m ∧
                        Exists (λ k, index f !! i = Some (labels !!! k)) l))
        as [[Hj Hex]|Hn'].
      * rewrite decide_True; [done|]. split; [done|]. apply Exists_app. by left.
      * rewrite decide_False; [done|]. intros [Hj Hex].
        apply Exists_app in Hex as [Hex|Hex]; [by destruct Hn'|].
        apply Exists_cons in Hex as [Hi|Hex]; [by destruct Hn|].
        by apply Exists_nil in Hex.
Qed.

End SetRows.

Section CorrelationFacts.
Variable pearsonr spearmanr : list Q → list Q → result float.
Variable results : gmap string Table.
Variable true_freqs : Table.

Abbreviation pearson_of := (corr_of pearsonr results true_freqs).
Abbreviation spearman_of := (corr_of spearmanr results true_freqs).

(** The loop over the cell types leaves the per-sample tables alone and
    leaves [cell] bound to the last cell type, if there is one. *)
Lemma per_cell_loop (method : string) (cell_types : list string)
    (st st' : corr_locals) :
  for_each cell_types (per_cell_body pearsonr spearmanr results true_freqs
                         method) st = Ok st' →
  p_corr_per_sample st' = p_corr_per_sample st ∧
  s_corr_per_sample st' = s_corr_per_sample st ∧
  cell st' = match last cell_types with
             | Some c => Some c
             | None => cell st
             end.
Proof.
  revert st. induction cell_types as [|c cell_types IH]; intros st; simpl.
  - by intros [= <-].
  - destruct (per_cell_body _ _ _ _ _ st c) as [st1|] eqn:Hbody;
      simpl; [|done].
    unfold per_cell_body in Hbody.
    destruct (pearson_of method c) as [p|]; simpl in Hbody; [|done].
    destruct (spearman_of method c) as [s|]; simpl in Hbody; [|done].
    injection Hbody as <-.
    intros Hloop. destruct (IH _ Hloop) as (-> & -> & ->). simpl.
    rewrite last_cons. by destruct (last cell_types).
Qed.

(** The loop over the samples uses the [cell] it finds bound: it computes
    the same two coefficients at every turn and stores them in the rows of
    the samples, one after the other. *)
Lemma per_sample_loop (method : string) (l : list nat)
    (st st' : corr_locals) :
  for_each l (per_sample_body pearsonr spearmanr results true_freqs method)
    st = Ok st' →
  (l = [] ∧ st' = st) ∨
  ∃ c p s,
    cell st = Some c ∧
    pearson_of method c = Ok p ∧ spearman_of method c = Ok s ∧
    st' = {| p_corr_per_cell := p_corr_per_cell st;
             p_corr_per_sample :=
               foldl (λ f k, loc_set (index true_freqs !!! k) method p f)
                 (p_corr_per_sample st) l;
             s_corr_per_cell := s_corr_per_cell st;
             s_corr_per_sample :=
               foldl (λ f k, loc_set (index true_freqs !!! k) method s f)
                 (s_corr_per_sample st) l;
             cell := Some c |}.
Proof.
  revert st. induction l as [|k l IH]; intros st; simpl.
  - intros [= <-]. by left.
  - destruct (per_sample_body _ _ _ _ _ st k) as [st1|] eqn:Hbody;
      simpl; [|done].
    unfold per_sample_body in Hbody.
    destruct (cell st) as [c|] eqn:Hcell; simpl in Hbody; [|done].
    destruct (pearson_of method c) as [p|] eqn:Hp; simpl in Hbody; [|done].
    destruct (spearman_of method c) as [s|] eqn:Hs; simpl in Hbody; [|done].
    injection Hbody as <-.
    intros Hloop. right. exists c, p, s.
    split; [done|]. split; [done|]. split; [done|].
    destruct (IH _ Hloop) as [[-> ->]|(c' & p' & s' & Hc' & Hp' & Hs' & ->)];
      [done|].
    simpl in Hc'. injection Hc' as <-.
    rewrite Hp in Hp'. injection Hp' as <-.
    rewrite Hs in Hs'. injection Hs' as <-. done.
Qed.

End CorrelationFacts.

Section CorrTableFacts.
Variable pearsonr spearmanr : list Q → list Q → result float.
Variable results : gmap string Table.
Variable cell_types : list string.
Variable true_freqs : Table.

Lemma per_sample_filled_set_rows (corr : list Q → list Q → result float)
    (dealt : list string) (f : CorrFrame) (method c : string) (v : float) :
  per_sample_filled corr results cell_types true_freqs dealt f →
  last cell_types = Some c →
  corr_of corr results true_freqs method c = Ok v →
  per_sample_filled corr results cell_types true_freqs (dealt ++ [method])
    (foldl (λ f k, loc_set (index true_freqs !!! k) method v f) f
       (seq 0 (length (index true_freqs)))).
Proof.
  intros (Hrect & Hidx & Hfilled) Hlast Hcorr.
  destruct (set_rows_shape (index true_freqs) method v f
              (seq 0 (length (index true_freqs))) Hrect)
    as (Hrect' & Hidx' & Hcols').
  split; [done|]. split; [by rewrite Hidx'|].
  intros i j m Hi Hj Hm. rewrite Hcols' in Hj.
  rewrite set_rows_cell by done.
  destruct (decide (m = method)) as [->|Hne].
  - exists c, v. split; [done|]. split; [done|].
    rewrite decide_True; [done|]. split; [done|].
    apply Exists_exists. exists i. split; [by apply elem_of_seq; lia|].
    rewrite Hidx. by apply list_lookup_lookup_total_lt.
  - rewrite decide_False by (intros [? _]; congruence).
    apply (Hfilled i j m); [done..|].
    apply elem_of_app in Hm as [?|Hm]; [done|].
    by apply list_elem_of_singleton in Hm.
Qed.

Lemma per_sample_filled_empty (corr : list Q → list Q → result float)
    (dealt : list string) (f : CorrFrame) :
  rectangular f → index f = index true_freqs →
  index true_freqs = [] →
  per_sample_filled corr results cell_types true_freqs dealt f.
Proof.
  intros Hrect Hidx Hnil. split; [done|]. split; [done|].
  intros i j m Hi. rewrite Hnil in Hi. simpl in Hi. lia.
Qed.

Lemma per_method_step (methods dealt : list string) (method : string)
    (st st' : corr_locals) :
  corr_invariant pearsonr spearmanr results cell_types true_freqs methods
    dealt st →
  per_method_body pearsonr spearmanr results cell_types true_freqs st method
  = Ok st' →
  corr_invariant pearsonr spearmanr results cell_types true_freqs methods
    (dealt ++ [method]) st'.
Proof.
  intros (Hp & Hs & Hpc & Hsc & Hcell). unfold per_method_body.
  destruct (for_each cell_types _ st) as [st1|] eqn:Hcells; simpl; [|done].
  apply per_cell_loop in Hcells as (Hp1 & Hs1 & Hcell1).
  assert (cell st1 = last cell_types) as Hlast.
  { rewrite Hcell1. destruct (last cell_types); [done|]. by destruct Hcell. }
  intros Hsamples.
  apply per_sample_loop in Hsamples
    as [[Hnil ->]|(c & p & s & Hc & Hpv & Hsv & ->)].
  - assert (index true_freqs = []) as Hidx.
    { by destruct (index true_freqs). }
    rewrite <-Hp1 in Hp, Hpc. rewrite <-Hs1 in Hs, Hsc.
    destruct Hp as (? & ? & _), Hs as (? & ? & _).
    split; [by apply per_sample_filled_empty|].
    split; [by apply per_sample_filled_empty|].
    split; [done|]. split; [done|]. by right.
  - rewrite Hlast in Hc. simpl. rewrite Hp1, Hs1.
    split; [by apply (per_sample_filled_set_rows pearsonr dealt _ method c)|].
    split; [by apply (per_sample_filled_set_rows spearmanr dealt _ method c)|].
    destruct Hp as (Hrp & _), Hs as (Hrs & _). simpl.
    destruct (set_rows_shape (index true_freqs) method p _
                (seq 0 (length (index true_freqs))) Hrp) as (_ & _ & ->).
    destruct (set_rows_shape (index true_freqs) method s _
                (seq 0 (length (index true_freqs))) Hrs) as (_ & _ & ->).
    split; [done|]. split; [done|]. by right.
Qed.

Lemma per_method_loop (methods l dealt : list string)
    (st st' : corr_locals) :
  corr_invariant pearsonr spearmanr results cell_types true_freqs methods
    dealt st →
  for_each l
    (per_method_body pearsonr spearmanr results cell_types true_freqs) st
  = Ok st' →
  corr_invariant pearsonr spearmanr results cell_types true_freqs methods
    (dealt ++ l) st'.
Proof.
  revert dealt st. induction l as [|m l IH]; intros dealt st Hinv; simpl.
  - intros [= <-]. by rewrite app_nil_r.
  - destruct (per_method_body _ _ _ _ _ st m) as [st1|] eqn:Hbody;
      simpl; [|done].
    intros Hloop. rewrite cons_middle, app_assoc.
    eapply IH; [|done]. by eapply per_method_step.
Qed.

End CorrTableFacts.

Lemma empty_frame_rectangular (idx cols : list string) :
  rectangular (empty_frame idx cols).
Proof.
  split; simpl.
  - by rewrite length_replicate.
  - apply Forall_forall. intros row Hrow.
    apply elem_of_replicate in Hrow as [-> _]. by rewrite length_replicate.
Qed.

Lemma np_abs_cell (f : CorrFrame) i j :
  cell_at (np_abs f) i j = fabs <$> cell_at f i j.
Proof.
  unfold cell_at. simpl. rewrite list_lookup_fmap.
  destruct (values f !! i) as [row|]; [|done]. simpl.
  by rewrite list_lookup_fmap.
Qed.

Lemma np_abs_rectangular (f : CorrFrame) :
  rectangular f → rectangular (np_abs f).
Proof.
  intros [Hlen Hrows]. split; simpl.
  - by rewrite length_fmap.
  - apply Forall_fmap. eapply Forall_impl; [done|].
    intros row Hrow. simpl. by rewrite length_fmap.
Qed.

(** Rows that agree cell by cell are equal. *)
Lemma rows_equal_of_cells {V} (f : DataFrame (list string) V) i i' :
  rectangular f →
  (∀ j, cell_at f i j = cell_at f i' j) →
  (i < length (index f))%nat → (i' < length (index f))%nat →
  values f !! i = values f !! i'.
Proof.
  intros [Hlen Hrows] Hcells Hi Hi'.
  unfold axis_len, list_axis_len in *.
  destruct (lookup_lt_is_Some_2 (values f) i) as [row Hrow]; [lia|].
  destruct (lookup_lt_is_Some_2 (values f) i') as [row' Hrow']; [lia|].
  rewrite Hrow, Hrow'. f_equal. apply list_eq. intros j.
  specialize (Hcells j). unfold cell_at in Hcells.
  by rewrite Hrow, Hrow' in Hcells.
Qed.

(** C9: in the two per-sample tables that [corr_table] returns, the entry of
    every sample under a method is the absolute coefficient of that method
    for the last cell type of the loop over the cell types, so that all the
    rows of each table are the same. *)
Theorem corr_table_per_sample_rows
    (pearsonr spearmanr : list Q → list Q → result float)
    (methods : list string) (results : gmap string Table)
    (cell_types : list string) (true_freqs : Table)
    (p_cell p_sample s_cell s_sample : CorrFrame) :
  corr_table pearsonr spearmanr methods results cell_types true_freqs
  = Ok (p_cell, p_sample, s_cell, s_sample) →
  index p_sample = index true_freqs ∧ columns p_sample = methods ∧
  index s_sample = index true_freqs ∧ columns s_sample = methods ∧
  (∀ i j m,
     (i < length (index true_freqs))%nat → methods !! j = Some m →
     ∃ c p s,
       last cell_types = Some c ∧
       corr_of pearsonr results true_freqs m c = Ok p ∧
       corr_of spearmanr results true_freqs m c = Ok s ∧
       cell_at p_sample i j = Some (fabs p) ∧
       cell_at s_sample i j = Some (fabs s)) ∧
  (∀ i i',
     (i < length (index true_freqs))%nat →
     (i' < length (index true_freqs))%nat →
     values p_sample !! i = values p_sample !! i' ∧
     values s_sample !! i = values s_sample !! i').
Proof.
  unfold corr_table.
  destruct (for_each methods _ _) as [st|] eqn:Hloop; simpl; [|done].
  intros [= <- <- <- <-].
  apply (per_method_loop pearsonr spearmanr results cell_types true_freqs
           methods methods []) in Hloop; last first.
  { split; [|split; [|split; [done|split; [done|by left]]]];
      (split; [apply empty_frame_rectangular|split; [done|]]);
      by intros i j m _ _ ?%elem_of_nil. }
  destruct Hloop as ((Hrp & Hip & Hp) & (Hrs & His & Hs) & Hcp & Hcs & _).
  simpl in Hp, Hs.
  assert (∀ i j m,
    (i < length (index true_freqs))%nat → methods !! j = Some m →
    ∃ c p s,
      last cell_types = Some c ∧
      corr_of pearsonr results true_freqs m c = Ok p ∧
      corr_of spearmanr results true_freqs m c = Ok s ∧
      cell_at (np_abs (p_corr_per_sample st)) i j = Some (fabs p) ∧
      cell_at (np_abs (s_corr_per_sample st)) i j = Some (fabs s)) as Hcells.
  { intros i j m Hi Hj.
    assert (m ∈ methods) as Hm by (by eapply list_elem_of_lookup_2).
    destruct (Hp i j m) as (c & p & Hc & Hpv & Hpcell);
      [done|by rewrite Hcp|done|].
    destruct (Hs i j m) as (c' & s & Hc' & Hsv & Hscell);
      [done|by rewrite Hcs|done|].
    rewrite Hc in Hc'. injection Hc' as <-.
    exists c, p, s. rewrite !np_abs_cell, Hpcell, Hscell. done. }
  split; [done|]. split; [done|]. split; [done|]. split; [done|].
  split; [done|].
  assert (∀ (corr : list Q → list Q → result float) (f : CorrFrame) i i',
    rectangular f → index f = index true_freqs → columns f = methods →
    (∀ i j m, (i < length (index true_freqs))%nat → methods !! j = Some m →
              ∃ v, cell_at f i j = Some v ∧
                   ∀ i', (i' < length (index true_freqs))%nat →
                         cell_at f i' j = Some v) →
    (i < length (index true_freqs))%nat →
    (i' < length (index true_freqs))%nat →
    values f !! i = values f !! i') as Hrows.
  { intros _ f i i' Hrect Hidx Hcols Hsame Hi Hi'.
    apply rows_equal_of_cells; [done| |by rewrite Hidx..].
    intros j. destruct (methods !! j) as [m|] eqn:Hj.
    - destruct (Hsame i j m Hi Hj) as (v & -> & Hall). by rewrite Hall.
    - destruct Hrect as [Hlen Hrws]. unfold axis_len, list_axis_len in *.
      unfold cell_at.
      destruct (lookup_lt_is_Some_2 (values f) i) as [row Hrow];
        [rewrite Hlen, Hidx; lia|].
      destruct (lookup_lt_is_Some_2 (values f) i') as [row' Hrow'];
        [rewrite Hlen, Hidx; lia|].
      rewrite Hrow, Hrow'. simpl.
      pose proof (Forall_lookup_1 _ _ _ _ Hrws Hrow) as Hl.
      pose proof (Forall_lookup_1 _ _ _ _ Hrws Hrow') as Hl'.
      simpl in Hl, Hl'. rewrite Hcols in Hl, Hl'.
      apply lookup_ge_None in Hj.
      rewrite !lookup_ge_None_2 by lia. done. }
  intros i i' Hi Hi'. split.
  - apply (Hrows pearsonr); [by apply np_abs_rectangular|done..| |done|done].
    intros i0 j m Hi0 Hj.
    destruct (Hcells i0 j m Hi0 Hj) as (c & p & s & Hc & Hpv & Hsv & Hpc & _).
    exists (fabs p). split; [done|]. intros i1 Hi1.
    destruct (Hcells i1 j m Hi1 Hj)
      as (c' & p' & s' & Hc' & Hpv' & _ & Hpc' & _).
    rewrite Hc in Hc'. injection Hc' as <-.
    rewrite Hpv in Hpv'. by injection Hpv' as <-.
  - apply (Hrows spearmanr); [by apply np_abs_rectangular|done..| |done|done].
    intros i0 j m Hi0 Hj.
    destruct (Hcells i0 j m Hi0 Hj) as (c & p & s & Hc & Hpv & Hsv & _ & Hsc).
    exists (fabs s). split; [done|]. intros i1 Hi1.
    destruct (Hcells i1 j m Hi1 Hj)
      as (c' & p' & s' & Hc' & _ & Hsv' & _ & Hsc').
    rewrite Hc in Hc'. injection Hc' as <-.
    rewrite Hsv in Hsv'. by injection Hsv' as <-.
Qed.

Lemma corr_table_per_sample_rows_witness :
  index corr_example_out.1.1.2 = index truth_example ∧
  columns corr_example_out.1.1.2 = ["m1"] ∧
  index corr_example_out.2 = index truth_example ∧
  columns corr_example_out.2 = ["m1"] ∧
  (∀ i j m,
     (i < length (index truth_example))%nat → ["m1"] !! j = Some m →
     ∃ c p s,
       last ["A"; "B"] = Some c ∧
       corr_of dot_product results_example truth_example m c = Ok p ∧
       corr_of sum_difference results_example truth_example m c = Ok s ∧
       cell_at corr_example_out.1.1.2 i j = Some (fabs p) ∧
       cell_at corr_example_out.2 i j = Some (fabs s)) ∧
  (∀ i i',
     (i < length (index truth_example))%nat →
     (i' < length (index truth_example))%nat →
     values corr_example_out.1.1.2 !! i = values corr_example_out.1.1.2 !! i' ∧
     values corr_example_out.2 !! i = values corr_example_out.2 !! i').
Proof.
  apply (corr_table_per_sample_rows dot_product sum_difference ["m1"]
           results_example ["A"; "B"] truth_example
           corr_example_out.1.1.1 corr_example_out.1.1.2
           corr_example_out.1.2 corr_example_out.2).
  by vm_compute.
Defined.

(** The run behind the witness: the table of two samples has two equal
    rows, the coefficients of the last cell type B. *)
Example corr_table_example :
  corr_table dot_product sum_difference ["m1"] results_example ["A"; "B"]
    truth_example = Ok corr_example_out ∧
  values corr_example_out.1.1.2 = [[Fin 6]; [Fin 6]] ∧
  corr_of dot_product results_example truth_example "m1" "B" = Ok (Fin 6).
Proof. split_and!; by vm_compute. Qed.

(** Without cell types [cell] is never bound, and the first turn of the loop
    over the samples fails. *)
Example corr_table_no_cell_types :
  corr_table dot_product sum_difference ["m1"] results_example []
    truth_example = Raise (UnboundLocalError "cell").
Proof. by vm_compute. Qed.

(** The failing input of C6: two well-formed tables and one of their
    columns; the call stops at the first use of [np]. *)
Example predicted_truth_bycell_example :
  predicted_truth_bycell "m1" truth_example truth_example ["A"]
  = Raise (NameError "np").
Proof. by vm_compute. Qed.

(** ** The functions on small inputs *)

(** The gene g2 is worth five times its median in B; g3 has a zero median,
    so that its ratio in C is infinite and its ratios in A and B are not
    numbers; the constant g1 is nowhere. *)
Example find_up_down_genes_from_sig_example :
  find_up_down_genes_from_sig sig_example default_down_cutoff
    default_up_cutoff
  = ({[ "A" := []; "B" := ["g2"]; "C" := ["g3"] ]},
     {[ "A" := []; "B" := []; "C" := [] ]}).
Proof. by vm_compute. Qed.

Example keep_common_genes_example :
  keep_common_genes rna_example sig_shared_example
  = Ok ({| index := ["BRCA1"; "EGFR"]; columns := ["patient1"; "patient2"];
           values := [[3; 4]; [5; 6]]%Q |},
        {| index := ["BRCA1"; "EGFR"]; columns := ["B cells"];
           values := [[9]; [7]]%Q |}).
Proof. by vm_compute. Qed.

Example variance_threshold_selector_example :
  variance_threshold_selector sig_example (1 # 2)
  = Ok {| index := ["g2"; "g3"]; columns := ["A"; "B"; "C"];
          values := [[1; 10; 2]; [0; 0; 5]]%Q |}.
Proof. by vm_compute. Qed.

(** With a repeated row key the columns picked by label bring back every
    row of that key: the second row, of variance 0, is returned. *)
Example variance_threshold_selector_repeated_key :
  variance_threshold_selector
    {| index := ["g"; "g"; "h"]; columns := ["A"; "B"];
       values := [[0; 4]; [1; 1]; [2; 2]]%Q |} (1 # 2)
  = Ok {| index := ["g"; "g"]; columns := ["A"; "B"];
          values := [[0; 4]; [1; 1]]%Q |}.
Proof. by vm_compute. Qed.

(** Rescaling the rows: 1, 2, 3 become 0, 1/2, 1, and 4, 4, 9 become
    0, 0, 1; on these numbers the rounded operations are exact. *)
Example df_normalization_minmax_example :
  ∃ r h' d',
    df_normalization (λ x, x) 1%positive "minmax" 1
      {[ 1%positive := frame_example ]} = (Ok r, h') ∧
    h' !! r = Some d' ∧
    index d' = Labels ["g1"; "g2"] ∧
    Forall2 (Forall2 Qeq) (values d') [[0; 1 # 2; 1]; [0; 0; 1]]%Q.
Proof.
  eexists _, _, _. split; [by vm_compute|]. split; [by vm_compute|].
  split; [done|]. repeat constructor; by vm_compute.
Qed.

(** The scale of the column of 1 and 7 is the machine number nearest to
    1/6, which is below it, and the maximum becomes 1 - 2^-53. *)
Example min_max_rounds_below :
  (min_max [1; 7] 7 == 1 - Binary64.pow2 (-53))%Q ∧
  (min_max [1; 6] 6 == 1 + Binary64.pow2 (-52))%Q ∧
  (min_max [1; 3] 3 == 1)%Q.
Proof. split_and!; by vm_compute. Qed.

(** * Further properties of the module *)

(** ** Reading an expression table under either identifier *)

Section ReadersSchemes.
Import Readers.
Variable py_str : Q → string.

Lemma col_pos_lookup name cols k :
  col_pos name cols = Some k → cols !! k = Some name.
Proof.
  revert k. induction cols as [|c cols IH]; intros k; [done|]. simpl.
  case_decide as Hc; [intros [= <-]; by rewrite Hc|].
  destruct (col_pos name cols) as [k'|]; [|done].
  intros [= <-]. by apply IH.
Qed.

(** The columns left once the positions [k] and [o] are taken out. *)
Lemma elem_of_keep {A} (l : list A) (k o : nat) (x : A) :
  x ∈ (imap (λ j y, if decide (j = k ∨ j = o) then None else Some y) l)
        ≫= option_list
  ↔ ∃ j, l !! j = Some x ∧ j ≠ k ∧ j ≠ o.
Proof.
  rewrite list_elem_of_bind. split.
  - intros (oy & Hx & Hoy).
    apply elem_of_lookup_imap in Hoy as (j & y & -> & Hj).
    case_decide as Hd; [by apply elem_of_nil in Hx|].
    apply list_elem_of_singleton in Hx as ->.
    exists j. split; [done|]. split; intros ->; apply Hd; auto.
  - intros (j & Hj & Hk & Ho). exists (Some x). split; [by left|].
    apply elem_of_lookup_imap. exists j, x. split; [|done].
    rewrite decide_False; [done|]. by intros [?|?].
Qed.

Lemma keep_swap {A} (l : list A) (k o : nat) :
  (imap (λ j y, if decide (j = k ∨ j = o) then None else Some y) l)
    ≫= option_list
  = (imap (λ j y, if decide (j = o ∨ j = k) then None else Some y) l)
      ≫= option_list.
Proof.
  f_equal. apply imap_ext. intros j y _.
  apply decide_ext. tauto.
Qed.

Lemma index_cells_text (rows : list (list cell)) (k o : nat) :
  Forall (λ c, ∃ s, c = Text s)
    ((λ r, default (Text "") (r !! k))
       <$> ((λ r, alter (astype_str py_str) o r)
              <$> ((λ r, alter (astype_str py_str) k r) <$> rows))) ∧
  Forall (λ c, ∃ s, c = Text s)
    ((λ r, default (Text "") (r !! o))
       <$> ((λ r, alter (astype_str py_str) o r)
              <$> ((λ r, alter (astype_str py_str) k r) <$> rows))).
Proof.
  assert (∀ c, ∃ s, astype_str py_str c = Text s) as Htext.
  { intros [s|q]; by eexists. }
  split; rewrite <-!list_fmap_compose; apply Forall_fmap, Forall_forall;
    intros r _; simpl.
  - rewrite list_lookup_alter.
    destruct (decide (o = k)) as [->|Hne]; rewrite list_lookup_alter_eq;
      destruct (r !! k) as [c|]; simpl; try by eexists.
    + destruct (Htext c) as [s ->]. by eexists.
    + apply Htext.
  - rewrite list_lookup_alter_eq.
    destruct (alter (astype_str py_str) k r !! o) as [c|]; simpl;
      [apply Htext|by eexists].
Qed.

End ReadersSchemes.

(** X1: on a file that has the two identifier columns, the reader succeeds
    under 'hugo' and under 'entrez' after one read; the two tables have the
    same columns (those of the file other than the two identifier columns,
    in their order) and the same rows, one per row of the file, and differ
    only in their row labels, which are text in both. *)
Theorem read_pancancer_rna_file_schemes
    (py_str : Q → string) (path : string) (w : Readers.World)
    (f : Readers.RawFrame) :
  Readers.files w !! path = Some f →
  NoDup (Readers.raw_columns f) →
  "Hugo_Symbol" ∈ Readers.raw_columns f →
  "Entrez_Gene_Id" ∈ Readers.raw_columns f →
  ∃ by_hugo by_entrez,
    Readers.read_pancancer_rna_file py_str path "hugo" w
    = (Ok by_hugo, {| Readers.files := Readers.files w;
                      Readers.reads := Readers.reads w ++ [path] |}) ∧
    Readers.read_pancancer_rna_file py_str path "entrez" w
    = (Ok by_entrez, {| Readers.files := Readers.files w;
                        Readers.reads := Readers.reads w ++ [path] |}) ∧
    Readers.expr_columns by_hugo = Readers.expr_columns by_entrez ∧
    Readers.expr_rows by_hugo = Readers.expr_rows by_entrez ∧
    (∀ c, c ∈ Readers.expr_columns by_hugo ↔
          c ∈ Readers.raw_columns f ∧
          c ≠ "Hugo_Symbol" ∧ c ≠ "Entrez_Gene_Id") ∧
    length (Readers.expr_rows by_hugo) = length (Readers.raw_rows f) ∧
    length (Readers.expr_index by_hugo) = length (Readers.raw_rows f) ∧
    length (Readers.expr_index by_entrez) = length (Readers.raw_rows f) ∧
    Forall (λ c, ∃ s, c = Readers.Text s) (Readers.expr_index by_hugo) ∧
    Forall (λ c, ∃ s, c = Readers.Text s) (Readers.expr_index by_entrez).
Proof.
  intros Hf Hnd Hh He.
  destruct (col_pos_is_Some _ _ Hh) as [k Hk].
  destruct (col_pos_is_Some _ _ He) as [o Ho].
  pose proof (col_pos_lookup _ _ _ Hk) as Hk'.
  pose proof (col_pos_lookup _ _ _ Ho) as Ho'.
  unfold Readers.read_pancancer_rna_file, Readers.read_csv, mbind, prog_bind,
    lift.
  rewrite Hf. simpl. rewrite Hk. simpl. rewrite Ho. simpl.
  unfold Readers.set_index_drop. simpl. rewrite Hk, Ho.
  eexists _, _. split; [done|]. split; [done|]. simpl.
  split; [apply keep_swap|].
  split; [apply list_fmap_ext; intros _ r _; apply keep_swap|].
  split.
  { intros c. rewrite elem_of_keep. split.
    - intros (j & Hj & Hjk & Hjo).
      split; [by eapply list_elem_of_lookup_2|].
      split; intros ->.
      + apply Hjk. by eapply NoDup_lookup.
      + apply Hjo. by eapply NoDup_lookup.
    - intros (Hc & Hch & Hce).
      apply list_elem_of_lookup_1 in Hc as [j Hj].
      exists j. split; [done|]. split; intros ->; congruence. }
  rewrite !length_fmap.
  split; [done|]. split; [done|]. split; [done|].
  destruct (index_cells_text py_str (Readers.raw_rows f) k o) as [H1 H2].
  by split.
Qed.

Lemma read_pancancer_rna_file_schemes_witness :
  ∃ by_hugo by_entrez,
    Readers.read_pancancer_rna_file no_str "rna.tsv" "hugo" one_file
    = (Ok by_hugo, {| Readers.files := Readers.files one_file;
                      Readers.reads := Readers.reads one_file ++ ["rna.tsv"] |}) ∧
    Readers.read_pancancer_rna_file no_str "rna.tsv" "entrez" one_file
    = (Ok by_entrez, {| Readers.files := Readers.files one_file;
                        Readers.reads := Readers.reads one_file ++ ["rna.tsv"] |}) ∧
    Readers.expr_columns by_hugo = Readers.expr_columns by_entrez ∧
    Readers.expr_rows by_hugo = Readers.expr_rows by_entrez ∧
    (∀ c, c ∈ Readers.expr_columns by_hugo ↔
          c ∈ Readers.raw_columns rna_file ∧
          c ≠ "Hugo_Symbol" ∧ c ≠ "Entrez_Gene_Id") ∧
    length (Readers.expr_rows by_hugo) = length (Readers.raw_rows rna_file) ∧
    length (Readers.expr_index by_hugo) = length (Readers.raw_rows rna_file) ∧
    length (Readers.expr_index by_entrez)
    = length (Readers.raw_rows rna_file) ∧
    Forall (λ c, ∃ s, c = Readers.Text s) (Readers.expr_index by_hugo) ∧
    Forall (λ c, ∃ s, c = Readers.Text s) (Readers.expr_index by_entrez).
Proof.
  apply (read_pancancer_rna_file_schemes no_str "rna.tsv" one_file rna_file).
  - reflexivity.
  - apply (bool_decide_unpack _). by vm_compute.
  - apply (bool_decide_unpack _). by vm_compute.
  - apply (bool_decide_unpack _). by vm_compute.
Defined.

(** ** Reading the signature matrix *)

(** X2: whatever the header of the first column, the signature reader takes
    that column as the row labels, keeps the other columns under their own
    names and in their order, and keeps one row per row of the file; the
    file is read once. *)
Theorem read_lm22_file_first_column
    (path : string) (w : Readers.World) (f : Readers.RawFrame)
    (header : string) (others : list string) :
  Readers.files w !! path = Some f →
  Readers.raw_columns f = header :: others →
  "Hugo_Symbol" ∉ others →
  read_lm22_file path w
  = (Ok {| Readers.expr_index :=
             (λ r, default (Readers.Text "") (head r)) <$> Readers.raw_rows f;
           Readers.expr_columns := others;
           Readers.expr_rows := tail <$> Readers.raw_rows f |},
     {| Readers.files := Readers.files w;
        Readers.reads := Readers.reads w ++ [path] |}).
Proof.
  intros Hf Hcols _.
  unfold read_lm22_file, Readers.read_csv, mbind, prog_bind, lift.
  rewrite Hf, Hcols. unfold raw_set_index. simpl. do 3 f_equal.
  - apply list_fmap_ext. intros _ r _. by destruct r.
  - apply list_fmap_ext. intros _ r _. by destruct r.
Qed.

Lemma read_lm22_file_first_column_witness :
  read_lm22_file "LM22.txt" lm22_world
  = (Ok {| Readers.expr_index :=
             (λ r, default (Readers.Text "") (head r))
               <$> Readers.raw_rows lm22_file;
           Readers.expr_columns := ["B cells"; "T cells"];
           Readers.expr_rows := tail <$> Readers.raw_rows lm22_file |},
     {| Readers.files := Readers.files lm22_world;
        Readers.reads := Readers.reads lm22_world ++ ["LM22.txt"] |}).
Proof.
  apply (read_lm22_file_first_column "LM22.txt" lm22_world lm22_file
           "Gene symbol" ["B cells"; "T cells"]).
  - reflexivity.
  - reflexivity.
  - apply (bool_decide_unpack _). by vm_compute.
Defined.

(** ** Gene-set readers *)

Section GeneSetsFacts.
Import GeneSets.

Lemma elem_of_unique {A} `{EqDecision A} (l : list A) (x : A) :
  x ∈ unique l ↔ x ∈ l.
Proof.
  induction l as [|y l IH]; [done|]. simpl.
  rewrite !elem_of_cons, list_elem_of_filter, IH. split.
  - intros [->|[_ ?]]; [by left|by right].
  - intros [->|?]; [by left|].
    destruct (decide (x = y)) as [->|?]; [by left|by right].
Qed.

Lemma for_each_total {S A} (body : S → A → result S) (step : S → A → S)
    (l : list A) (s : S) :
  (∀ s x, body s x = Ok (step s x)) →
  for_each l body s = Ok (foldl step s l).
Proof.
  intros Hbody. revert s. induction l as [|x l IH]; intros s; [done|].
  simpl. rewrite Hbody. simpl. apply IH.
Qed.

Lemma foldl_insert_lookup {K V} `{Countable K} (g : K → V) (l : list K)
    (m0 : gmap K V) (key : K) :
  foldl (λ m k, <[k := g k]> m) m0 l !! key
  = if decide (key ∈ l) then Some (g key) else m0 !! key.
Proof.
  revert m0. induction l as [|k l IH]; intros m0; cbn [foldl].
  - rewrite decide_False; [done|]. by intros ?%elem_of_nil.
  - rewrite IH. destruct (decide (key ∈ l)) as [Hin|Hnotin].
    + rewrite decide_True; [done|]. by right.
    + destruct (decide (key = k)) as [->|Hne].
      * rewrite decide_True by (by left). by rewrite lookup_insert_eq.
      * rewrite decide_False by (by intros [?|?]%elem_of_cons).
        by rewrite lookup_insert_ne.
Qed.

Lemma csv_getitem_NoDup (f : CsvFrame) (j : nat) (name : string) :
  NoDup (csv_columns f) → csv_columns f !! j = Some name →
  csv_getitem f name = Ok ((λ row, default None (row !! j)) <$> csv_rows f).
Proof.
  intros Hnd Hj. unfold csv_getitem. by rewrite (column_pos_NoDup _ j).
Qed.

Lemma boolean_select_series_eq (c : string)
    (cell_type symbol : list (option string)) :
  boolean_select (series_eq (Some c) <$> cell_type) symbol
  = (filter (λ p, p.1 = Some c) (zip cell_type symbol)).*2.
Proof.
  revert symbol. induction cell_type as [|x cell_type IH];
    intros [|y symbol]; try done.
  change (zip (x :: cell_type) (y :: symbol))
    with ((x, y) :: zip cell_type symbol).
  rewrite fmap_cons, filter_cons. cbn [boolean_select].
  case_decide as Hd; cbn [fst] in Hd.
  - subst x. unfold series_eq at 1. rewrite bool_decide_eq_true_2 by done.
    csimpl. by rewrite IH.
  - assert (series_eq (Some c) x = false) as ->; [|apply IH].
    destruct x as [x|]; [|done]. simpl.
    apply bool_decide_eq_false_2. congruence.
Qed.

Lemma boolean_select_series_eq_missing
    (cell_type symbol : list (option string)) :
  boolean_select (series_eq None <$> cell_type) symbol = [].
Proof.
  revert symbol. induction cell_type as [|x cell_type IH];
    intros [|y symbol]; try done.
  apply IH.
Qed.

Lemma dropna_padded (genes : list string) (k : nat) :
  dropna ((Some <$> genes) ++ replicate k None) = genes.
Proof.
  unfold dropna. rewrite omap_app.
  assert (omap id (replicate k (@None string)) = []) as ->.
  { induction k as [|k IH]; [done|]. simpl. apply IH. }
  rewrite app_nil_r. induction genes as [|g genes IH]; [done|].
  csimpl. by rewrite IH.
Qed.

End GeneSetsFacts.

(** X3: the named gene-set reader returns one key per cell type met in the
    file; under a cell type, the 'Symbol' cells of the rows of that cell
    type, in the order of the file.  A row without a cell type comes under
    no cell type: the missing value is a key of its own, with an empty
    list. *)
Theorem read_ssGSEA_up_genes_groups
    (fs : gmap string GeneSets.CsvFrame) (filepath : string)
    (f : GeneSets.CsvFrame) (a b : nat) :
  fs !! filepath = Some f →
  NoDup (GeneSets.csv_columns f) →
  GeneSets.csv_columns f !! a = Some "Cell type" →
  GeneSets.csv_columns f !! b = Some "Symbol" →
  ∃ up_genes,
    GeneSets.read_ssGSEA_up_genes fs filepath = Ok up_genes ∧
    (∀ key, is_Some (up_genes !! key) ↔
            key ∈ (λ row, default None (row !! a)) <$> GeneSets.csv_rows f) ∧
    (∀ c, Some c ∈ (λ row, default None (row !! a)) <$> GeneSets.csv_rows f →
          up_genes !! Some c
          = Some ((filter (λ p, p.1 = Some c)
                     (zip ((λ row, default None (row !! a))
                             <$> GeneSets.csv_rows f)
                          ((λ row, default None (row !! b))
                             <$> GeneSets.csv_rows f))).*2)) ∧
    (None ∈ (λ row, default None (row !! a)) <$> GeneSets.csv_rows f →
     up_genes !! None = Some []).
Proof.
  intros Hf Hnd Ha Hb. unfold GeneSets.read_ssGSEA_up_genes, GeneSets.read_csv.
  rewrite Hf. unfold mbind, result_bind. cbv beta iota.
  rewrite (csv_getitem_NoDup f a "Cell type" Hnd Ha).
  set (cell_type := (λ row, default None (row !! a)) <$> GeneSets.csv_rows f).
  set (symbol := (λ row, default None (row !! b)) <$> GeneSets.csv_rows f).
  set (step := λ (up_genes : gmap (option string) (list (option string)))
                 (cell : option string),
                 <[cell := boolean_select
                             (GeneSets.series_eq cell <$> cell_type) symbol]>
                   up_genes).
  rewrite (for_each_total _ step); last first.
  { intros up cell. by rewrite (csv_getitem_NoDup f b "Symbol" Hnd Hb). }
  eexists. split; [done|].
  assert (∀ key,
    foldl step ∅ (GeneSets.unique cell_type) !! key
    = if decide (key ∈ cell_type)
      then Some (boolean_select (GeneSets.series_eq key <$> cell_type) symbol)
      else None) as Hlookup.
  { intros key. unfold step.
    rewrite (foldl_insert_lookup
               (λ cell, boolean_select (GeneSets.series_eq cell <$> cell_type)
                          symbol)).
    destruct (decide (key ∈ GeneSets.unique cell_type)) as [Hin|Hnotin].
    - rewrite decide_True; [done|]. by apply elem_of_unique.
    - rewrite decide_False; [done|]. by rewrite <-elem_of_unique. }
  split; [|split].
  - intros key. rewrite Hlookup. case_decide; [by split|].
    split; [by intros [? ?]|done].
  - intros c Hc. rewrite Hlookup, decide_True by done.
    by rewrite boolean_select_series_eq.
  - intros Hnone. rewrite Hlookup, decide_True by done.
    by rewrite boolean_select_series_eq_missing.
Qed.

Lemma read_ssGSEA_up_genes_groups_witness :
  ∃ up_genes,
    GeneSets.read_ssGSEA_up_genes
      {[ GeneSets.default_filepath := named_sets_file ]}
      GeneSets.default_filepath = Ok up_genes ∧
    (∀ key, is_Some (up_genes !! key) ↔
            key ∈ (λ row, default None (row !! 0%nat))
                    <$> GeneSets.csv_rows named_sets_file) ∧
    (∀ c, Some c ∈ (λ row, default None (row !! 0%nat))
                     <$> GeneSets.csv_rows named_sets_file →
          up_genes !! Some c
          = Some ((filter (λ p, p.1 = Some c)
                     (zip ((λ row, default None (row !! 0%nat))
                             <$> GeneSets.csv_rows named_sets_file)
                          ((λ row, default None (row !! 1%nat))
                             <$> GeneSets.csv_rows named_sets_file))).*2)) ∧
    (None ∈ (λ row, default None (row !! 0%nat))
              <$> GeneSets.csv_rows named_sets_file →
     up_genes !! None = Some []).
Proof.
  apply (read_ssGSEA_up_genes_groups
           {[ GeneSets.default_filepath := named_sets_file ]}
           GeneSets.default_filepath named_sets_file 0 1).
  - reflexivity.
  - apply (bool_decide_unpack _). by vm_compute.
  - reflexivity.
  - reflexivity.
Defined.

(** X4: the columnar gene-set reader returns one key per column of the
    file; under it, the cells of the column that are not missing, in their
    order.  A column made of its genes followed by missing cells, as the
    format asks of the shorter columns, gives back exactly its genes. *)
Theorem read_custom_geneset_columns
    (fs : gmap string GeneSets.CsvFrame) (filepath : string)
    (f : GeneSets.CsvFrame) :
  fs !! filepath = Some f →
  NoDup (GeneSets.csv_columns f) →
  ∃ chosen_genes,
    GeneSets.read_custom_geneset fs filepath = Ok chosen_genes ∧
    (∀ c, is_Some (chosen_genes !! c) ↔ c ∈ GeneSets.csv_columns f) ∧
    (∀ j c, GeneSets.csv_columns f !! j = Some c →
            chosen_genes !! c
            = Some (omap id ((λ row, default None (row !! j))
                               <$> GeneSets.csv_rows f))) ∧
    (∀ j c genes k,
       GeneSets.csv_columns f !! j = Some c →
       (λ row, default None (row !! j)) <$> GeneSets.csv_rows f
       = (Some <$> genes) ++ replicate k None →
       chosen_genes !! c = Some genes).
Proof.
  intros Hf Hnd. unfold GeneSets.read_custom_geneset, GeneSets.read_csv.
  rewrite Hf. simpl. eexists. split; [done|].
  assert (∀ j c, GeneSets.csv_columns f !! j = Some c →
    foldl (fill_one (GeneSets.csv_getitem f) GeneSets.dropna) ∅
      (GeneSets.unique (GeneSets.csv_columns f)) !! c
    = Some (GeneSets.dropna ((λ row, default None (row !! j))
                               <$> GeneSets.csv_rows f))) as Hlookup.
  { intros j c Hj.
    apply (foldl_single_body_in (GeneSets.csv_getitem f) GeneSets.dropna).
    - apply elem_of_unique. by eapply list_elem_of_lookup_2.
    - by apply csv_getitem_NoDup. }
  split; [|split].
  - intros c. split.
    + intros Hsome. destruct (decide (c ∈ GeneSets.csv_columns f)); [done|].
      rewrite (foldl_single_body_notin (GeneSets.csv_getitem f)
                 GeneSets.dropna) in Hsome.
      * by destruct Hsome.
      * by rewrite elem_of_unique.
    + intros Hc. apply list_elem_of_lookup_1 in Hc as [j Hj].
      rewrite (Hlookup j c Hj). by eexists.
  - intros j c Hj. by rewrite (Hlookup j c Hj).
  - intros j c genes k Hj Hcol. rewrite (Hlookup j c Hj), Hcol.
    by rewrite dropna_padded.
Qed.

Lemma read_custom_geneset_columns_witness :
  ∃ chosen_genes,
    GeneSets.read_custom_geneset {[ "sets.csv" := columnar_sets_file ]}
      "sets.csv" = Ok chosen_genes ∧
    (∀ c, is_Some (chosen_genes !! c) ↔
          c ∈ GeneSets.csv_columns columnar_sets_file) ∧
    (∀ j c, GeneSets.csv_columns columnar_sets_file !! j = Some c →
            chosen_genes !! c
            = Some (omap id ((λ row, default None (row !! j))
                               <$> GeneSets.csv_rows columnar_sets_file))) ∧
    (∀ j c genes k,
       GeneSets.csv_columns columnar_sets_file !! j = Some c →
       (λ row, default None (row !! j))
         <$> GeneSets.csv_rows columnar_sets_file
       = (Some <$> genes) ++ replicate k None →
       chosen_genes !! c = Some genes).
Proof.
  apply (read_custom_geneset_columns {[ "sets.csv" := columnar_sets_file ]}
           "sets.csv" columnar_sets_file).
  - reflexivity.
  - apply (bool_decide_unpack _). by vm_compute.
Defined.

(** ** More on the up- and down-regulated genes *)

Lemma getitem_elem_of {V} `{Inhabited V} (df : DataFrame (list string) V)
    (c : string) :
  c ∈ columns df →
  ∃ j, column_pos c (columns df) = Some j ∧ columns df !! j = Some c ∧
       getitem df c = Ok (column j (values df)).
Proof.
  intros Hc. unfold getitem, column_pos.
  destruct (list_find_elem_of (λ c', c' = c) (columns df) c Hc eq_refl)
    as [[j y] Hfind].
  rewrite Hfind. simpl.
  apply list_find_Some in Hfind as (Hj & -> & _). by exists j.
Qed.

(** The two lists stored under a column label. *)
Lemma find_up_down_lookup (sig_df : Table) (down_cutoff up_cutoff : Q)
    (c : string) :
  c ∈ columns sig_df →
  ∃ j,
    column_pos c (columns sig_df) = Some j ∧
    columns sig_df !! j = Some c ∧
    (find_up_down_genes_from_sig sig_df down_cutoff up_cutoff).1 !! c
    = Some (boolean_select
              ((λ r, fgt r up_cutoff)
                 <$> column j (values (divide sig_df
                                         (median <$> values sig_df))))
              (index sig_df)) ∧
    (find_up_down_genes_from_sig sig_df down_cutoff up_cutoff).2 !! c
    = Some (boolean_select
              ((λ r, flt r down_cutoff)
                 <$> column j (values (divide sig_df
                                         (median <$> values sig_df))))
              (index sig_df)).
Proof.
  intros Hc. unfold find_up_down_genes_from_sig.
  set (sig_ratios := divide sig_df (median <$> values sig_df)).
  destruct (getitem_elem_of sig_ratios c Hc) as (j & Hpos & Hj & Hget).
  exists j. split; [done|]. split; [done|].
  apply (foldl_pair_body_in (getitem sig_ratios)
           (λ col, boolean_select ((λ r, fgt r up_cutoff) <$> col)
                     (index sig_ratios))
           (λ col, boolean_select ((λ r, flt r down_cutoff) <$> col)
                     (index sig_ratios))
           (columns sig_ratios) (∅, ∅) c _ Hc Hget).
Qed.

Lemma find_up_down_absent (sig_df : Table) (down_cutoff up_cutoff : Q)
    (c : string) :
  c ∉ columns sig_df →
  (find_up_down_genes_from_sig sig_df down_cutoff up_cutoff).1 !! c = None ∧
  (find_up_down_genes_from_sig sig_df down_cutoff up_cutoff).2 !! c = None.
Proof.
  intros Hc. unfold find_up_down_genes_from_sig.
  destruct (foldl_pair_body_notin
              (getitem (divide sig_df (median <$> values sig_df)))
              (λ col, boolean_select ((λ r, fgt r up_cutoff) <$> col)
                        (index sig_df))
              (λ col, boolean_select ((λ r, flt r down_cutoff) <$> col)
                        (index sig_df))
              (columns sig_df) (∅, ∅) c Hc) as [Hup Hdown].
  simpl in *. by rewrite Hup, Hdown, !lookup_empty.
Qed.

Lemma find_up_down_present (sig_df : Table) (down_cutoff up_cutoff : Q)
    (c : string) (l : list string) :
  (find_up_down_genes_from_sig sig_df down_cutoff up_cutoff).1 !! c = Some l ∨
  (find_up_down_genes_from_sig sig_df down_cutoff up_cutoff).2 !! c = Some l →
  c ∈ columns sig_df.
Proof.
  intros Hl. destruct (decide (c ∈ columns sig_df)) as [Hc|Hc]; [done|].
  destruct (find_up_down_absent sig_df down_cutoff up_cutoff c Hc)
    as [Hup Hdown].
  rewrite Hup, Hdown in Hl. by destruct Hl.
Qed.

Lemma boolean_select_mono {A B} (f1 f2 : B → bool) (col : list B)
    (l : list A) :
  (∀ r, f1 r = true → f2 r = true) →
  sublist (boolean_select (f1 <$> col) l) (boolean_select (f2 <$> col) l).
Proof.
  intros Himp. revert l. induction col as [|r col IH]; intros [|x l];
    csimpl; try done.
  destruct (f1 r) eqn:H1.
  - rewrite (Himp r H1). by constructor.
  - destruct (f2 r); [by constructor|done].
Qed.

Lemma flt_mono (r : float) (d1 d2 : Q) :
  (d1 <= d2)%Q → flt r d1 = true → flt r d2 = true.
Proof.
  intros Hle. destruct r as [q| | |]; simpl; try done.
  rewrite !Qltb_true_iff. intros Hlt. by eapply Qlt_le_trans.
Qed.

Lemma fgt_mono (r : float) (u1 u2 : Q) :
  (u2 <= u1)%Q → fgt r u1 = true → fgt r u2 = true.
Proof.
  intros Hle. destruct r as [q| | |]; simpl; try done.
  rewrite !Qltb_true_iff. intros Hlt. by eapply Qle_lt_trans.
Qed.

Lemma flt_fgt_exclusive (r : float) (d u : Q) :
  (d <= u)%Q → flt r d = true → fgt r u = true → False.
Proof.
  intros Hle. destruct r as [q| | |]; simpl; try done.
  rewrite !Qltb_true_iff. intros H1 H2. lra.
Qed.

(** X5: for a table with distinct column labels the two dictionaries have
    the same keys, the column labels of the table: every cell type has an
    entry in both, be it an empty list, and nothing else has. *)
Theorem find_up_down_genes_from_sig_keys
    (sig_df : Table) (down_cutoff up_cutoff : Q) (c : string) :
  NoDup (columns sig_df) →
  (is_Some ((find_up_down_genes_from_sig sig_df down_cutoff up_cutoff).1
              !! c) ↔ c ∈ columns sig_df) ∧
  (is_Some ((find_up_down_genes_from_sig sig_df down_cutoff up_cutoff).2
              !! c) ↔ c ∈ columns sig_df).
Proof.
  intros _. destruct (decide (c ∈ columns sig_df)) as [Hc|Hc].
  - destruct (find_up_down_lookup sig_df down_cutoff up_cutoff c Hc)
      as (j & _ & _ & -> & ->).
    split; (split; [done|by eexists]).
  - destruct (find_up_down_absent sig_df down_cutoff up_cutoff c Hc)
      as [-> ->].
    split; (split; [by intros [? ?]|done]).
Qed.

Lemma find_up_down_genes_from_sig_keys_witness :
  (is_Some ((find_up_down_genes_from_sig sig_example default_down_cutoff
               default_up_cutoff).1 !! "B") ↔ "B" ∈ columns sig_example) ∧
  (is_Some ((find_up_down_genes_from_sig sig_example default_down_cutoff
               default_up_cutoff).2 !! "B") ↔ "B" ∈ columns sig_example).
Proof.
  apply (find_up_down_genes_from_sig_keys sig_example default_down_cutoff
           default_up_cutoff "B").
  apply (bool_decide_unpack _). by vm_compute.
Defined.

(** X6: loosening the cutoffs only adds genes: with a higher down-cutoff
    the list of down-regulated genes of a cell type contains the former
    one, in the same order, and likewise for the up-regulated genes with a
    lower up-cutoff. *)
Theorem find_up_down_genes_from_sig_monotone
    (sig_df : Table) (down1 down2 up1 up2 : Q) (c : string)
    (up_c1 up_c2 down_c1 down_c2 : list string) :
  NoDup (columns sig_df) →
  (down1 <= down2)%Q → (up2 <= up1)%Q →
  (find_up_down_genes_from_sig sig_df down1 up1).1 !! c = Some up_c1 →
  (find_up_down_genes_from_sig sig_df down2 up2).1 !! c = Some up_c2 →
  (find_up_down_genes_from_sig sig_df down1 up1).2 !! c = Some down_c1 →
  (find_up_down_genes_from_sig sig_df down2 up2).2 !! c = Some down_c2 →
  sublist up_c1 up_c2 ∧ sublist down_c1 down_c2.
Proof.
  intros _ Hd Hu Hup1 Hup2 Hdown1 Hdown2.
  assert (c ∈ columns sig_df) as Hc.
  { apply (find_up_down_present sig_df down1 up1 c up_c1). by left. }
  destruct (find_up_down_lookup sig_df down1 up1 c Hc)
    as (j & Hpos & _ & Hu1 & Hd1).
  destruct (find_up_down_lookup sig_df down2 up2 c Hc)
    as (j' & Hpos' & _ & Hu2 & Hd2).
  rewrite Hpos in Hpos'. injection Hpos' as <-.
  rewrite Hu1 in Hup1. rewrite Hu2 in Hup2.
  rewrite Hd1 in Hdown1. rewrite Hd2 in Hdown2. simplify_eq.
  split; apply boolean_select_mono; intros r.
  - by apply fgt_mono.
  - by apply flt_mono.
Qed.

Lemma find_up_down_genes_from_sig_monotone_witness :
  sublist ["g2"] ["g1"; "g2"] ∧ sublist ([] : list string) ["g1"].
Proof.
  apply (find_up_down_genes_from_sig_monotone sig_example
           default_down_cutoff 2 default_up_cutoff (1 # 2) "B").
  - apply (bool_decide_unpack _). by vm_compute.
  - vm_compute. discriminate.
  - vm_compute. discriminate.
  - vm_compute. reflexivity.
  - vm_compute. reflexivity.
  - vm_compute. reflexivity.
  - vm_compute. reflexivity.
Defined.

(** X7: when the down-cutoff does not exceed the up-cutoff and the genes are
    labelled without repetition, no gene is both up- and down-regulated for
    the same cell type. *)
Theorem find_up_down_genes_from_sig_disjoint
    (sig_df : Table) (down_cutoff up_cutoff : Q) (c : string)
    (up_c down_c : list string) (g : string) :
  NoDup (columns sig_df) → NoDup (index sig_df) →
  (down_cutoff <= up_cutoff)%Q →
  (find_up_down_genes_from_sig sig_df down_cutoff up_cutoff).1 !! c
  = Some up_c →
  (find_up_down_genes_from_sig sig_df down_cutoff up_cutoff).2 !! c
  = Some down_c →
  g ∈ up_c → g ∉ down_c.
Proof.
  intros _ Hnd Hle Hup Hdown Hgu Hgd.
  assert (c ∈ columns sig_df) as Hc.
  { apply (find_up_down_present sig_df down_cutoff up_cutoff c up_c).
    by left. }
  destruct (find_up_down_lookup sig_df down_cutoff up_cutoff c Hc)
    as (j & _ & _ & Hu & Hd).
  rewrite Hu in Hup. rewrite Hd in Hdown. simplify_eq.
  apply elem_of_boolean_select in Hgu as (i & Hi & Hmu).
  apply elem_of_boolean_select in Hgd as (i' & Hi' & Hmd).
  pose proof (NoDup_lookup _ _ _ _ Hnd Hi Hi') as <-.
  rewrite list_lookup_fmap in Hmu, Hmd.
  destruct (column j (values (divide sig_df (median <$> values sig_df))) !! i)
    as [r|]; [|done].
  simpl in Hmu, Hmd. simplify_eq.
  by eapply (flt_fgt_exclusive r down_cutoff up_cutoff).
Qed.

Lemma find_up_down_genes_from_sig_disjoint_witness :
  "g2" ∉ ["g1"].
Proof.
  apply (find_up_down_genes_from_sig_disjoint sig_example 2 2 "B"
           ["g2"] ["g1"] "g2").
  - apply (bool_decide_unpack _). by vm_compute.
  - apply (bool_decide_unpack _). by vm_compute.
  - vm_compute. discriminate.
  - vm_compute. reflexivity.
  - vm_compute. reflexivity.
  - apply (bool_decide_unpack _). by vm_compute.
Defined.

Lemma fdiv_zero (x m : Q) :
  (m == 0)%Q →
  fdiv x (Fin m)
  = if Qeq_bool x 0 then NaN else if Qltb 0 x then PosInf else NegInf.
Proof.
  intros Hm. unfold fdiv.
  by rewrite (proj2 (Qeq_bool_iff m 0) Hm).
Qed.

(** X8: a gene whose median over the cell types is zero has no finite
    ratio.  Whatever the cutoffs, it is up-regulated for the cell types in
    which its value is positive and down-regulated for those in which it is
    negative; where its value is zero the ratio is not a number, and the
    gene is in neither list. *)
Theorem find_up_down_genes_from_sig_zero_median
    (sig_df : Table) (down_cutoff up_cutoff : Q) (i j : nat)
    (g c : string) (row : list Q) (m : Q) (up_c down_c : list string) :
  rectangular sig_df → NoDup (columns sig_df) → NoDup (index sig_df) →
  columns sig_df !! j = Some c →
  index sig_df !! i = Some g →
  values sig_df !! i = Some row →
  median row = Fin m → (m == 0)%Q →
  (find_up_down_genes_from_sig sig_df down_cutoff up_cutoff).1 !! c
  = Some up_c →
  (find_up_down_genes_from_sig sig_df down_cutoff up_cutoff).2 !! c
  = Some down_c →
  ((0 < row !!! j)%Q → g ∈ up_c ∧ g ∉ down_c) ∧
  (((row !!! j) < 0)%Q → g ∈ down_c ∧ g ∉ up_c) ∧
  (((row !!! j) == 0)%Q → (g ∉ up_c) ∧ (g ∉ down_c)).
Proof.
  intros Hrect Hndc Hndi Hj Hi Hrow Hmed Hm Hup Hdown.
  assert (c ∈ columns sig_df) as Hc by (by eapply list_elem_of_lookup_2).
  destruct (find_up_down_lookup sig_df down_cutoff up_cutoff c Hc)
    as (j' & Hpos & _ & Hu & Hd).
  rewrite (column_pos_NoDup _ j c Hndc Hj) in Hpos. injection Hpos as <-.
  rewrite Hu in Hup. rewrite Hd in Hdown. simplify_eq.
  assert (j < length row)%nat as Hlt.
  { destruct Hrect as [_ Hrows].
    rewrite (Forall_lookup_1 _ _ _ _ Hrows Hrow).
    by eapply lookup_lt_Some. }
  pose proof (divide_lookup sig_df i j row Hrow Hlt) as Hcell.
  rewrite Hmed, (fdiv_zero _ _ Hm) in Hcell.
  assert (∀ (test : float → bool) r,
            column j (values (divide sig_df (median <$> values sig_df))) !! i
            = Some r →
            g ∈ boolean_select
                  (test <$> column j (values (divide sig_df
                                                (median <$> values sig_df))))
                  (index sig_df) ↔ test r = true) as Hin.
  { intros test r Hr. rewrite elem_of_boolean_select. split.
    - intros (i' & Hi' & Hmask).
      pose proof (NoDup_lookup _ _ _ _ Hndi Hi Hi') as <-.
      rewrite list_lookup_fmap, Hr in Hmask. by injection Hmask.
    - intros Htest. exists i. split; [done|].
      by rewrite list_lookup_fmap, Hr; simpl; rewrite Htest. }
  rewrite !(Hin _ _ Hcell).
  split_and!; intros Hx.
  - assert (Qeq_bool (row !!! j) 0 = false) as ->.
    { apply not_true_iff_false. rewrite Qeq_bool_iff. lra. }
    assert (Qltb 0 (row !!! j) = true) as -> by (by apply Qltb_true_iff).
    by simpl.
  - assert (Qeq_bool (row !!! j) 0 = false) as ->.
    { apply not_true_iff_false. rewrite Qeq_bool_iff. lra. }
    assert (Qltb 0 (row !!! j) = false) as ->.
    { apply not_true_iff_false. rewrite Qltb_true_iff. lra. }
    by simpl.
  - rewrite (proj2 (Qeq_bool_iff _ 0) Hx). by simpl.
Qed.

Lemma find_up_down_genes_from_sig_zero_median_witness :
  ((0 < [0; 0; 5] !!! 2%nat)%Q → "g3" ∈ ["g3"] ∧ "g3" ∉ ([] : list string)) ∧
  ((([0; 0; 5] !!! 2%nat) < 0)%Q → "g3" ∈ ([] : list string) ∧ "g3" ∉ ["g3"]) ∧
  ((([0; 0; 5] !!! 2%nat) == 0)%Q → ("g3" ∉ ["g3"]) ∧ ("g3" ∉ ([] : list string))).
Proof.
  apply (find_up_down_genes_from_sig_zero_median sig_example
           default_down_cutoff default_up_cutoff 2 2 "g3" "C" [0; 0; 5]%Q 0
           ["g3"] []).
  - split; [reflexivity | repeat constructor].
  - apply (bool_decide_unpack _). by vm_compute.
  - apply (bool_decide_unpack _). by vm_compute.
  - reflexivity.
  - reflexivity.
  - reflexivity.
  - vm_compute. reflexivity.
  - reflexivity.
  - vm_compute. reflexivity.
  - vm_compute. reflexivity.
Defined.

(** ** More on the top-ranked genes *)

Section TopRankedFacts.
Variable argsort : list Q → list nat.
Hypothesis Hargsort : argsort_sorts argsort.

Lemma get_top_ranked_lookup (sig_df : Table) (sig_size j : nat) (c : string) :
  NoDup (columns sig_df) → columns sig_df !! j = Some c →
  get_top_ranked_genes_from_sig argsort sig_df sig_size !! c
  = Some (take sig_size
            (sort_values_descending argsort (index sig_df)
               (column j (values sig_df)))).
Proof.
  intros Hnd Hj. unfold get_top_ranked_genes_from_sig.
  apply (foldl_single_body_in (getitem sig_df)
           (λ col, take sig_size
                     (sort_values_descending argsort (index sig_df) col))
           (columns sig_df) ∅ c (column j (values sig_df))).
  - by eapply list_elem_of_lookup_2.
  - by apply getitem_NoDup.
Qed.

Lemma sort_values_descending_Permutation (labels : list string)
    (vals : list Q) :
  length vals = length labels →
  sort_values_descending argsort labels vals ≡ₚ labels.
Proof.
  intros Hlen. unfold sort_values_descending.
  rewrite nargsort_descending_permutation by done.
  by rewrite Hlen, fmap_lookup_total_seq.
Qed.

Lemma nargsort_descending_strongly_sorted vals :
  StronglySorted (flip Qle)
    ((λ i, vals !!! i) <$> nargsort_descending argsort vals).
Proof.
  apply Sorted_StronglySorted; [|by apply nargsort_descending_sorted].
  intros x y z Hxy Hyz. unfold flip in *. by eapply Qle_trans.
Qed.

End TopRankedFacts.

(** X9: the list of a cell type has [sig_size] genes, or all of them when
    the table has fewer, and it is a selection of the row labels in which no
    row is taken twice; so with [sig_size] at least the number of genes it
    is a rearrangement of all the row labels. *)
Theorem get_top_ranked_genes_from_sig_length
    (argsort : list Q → list nat) (sig_df : Table) (sig_size j : nat)
    (c : string) (l : list string) :
  argsort_sorts argsort →
  rectangular sig_df → NoDup (columns sig_df) →
  columns sig_df !! j = Some c →
  get_top_ranked_genes_from_sig argsort sig_df sig_size !! c = Some l →
  length l = (sig_size `min` length (index sig_df))%nat ∧
  l ⊆+ index sig_df ∧
  ((length (index sig_df) ≤ sig_size)%nat → l ≡ₚ index sig_df).
Proof.
  intros Hargsort [Hlen Hrows] Hnd Hj Hl.
  rewrite (get_top_ranked_lookup argsort sig_df sig_size j c Hnd Hj) in Hl.
  injection Hl as <-.
  pose proof (sort_values_descending_Permutation argsort Hargsort
                (index sig_df) (column j (values sig_df))) as Hperm.
  rewrite length_column in Hperm. specialize (Hperm Hlen).
  split_and!.
  - by rewrite length_take, Hperm.
  - rewrite <-Hperm at 2. apply sublist_submseteq, sublist_take.
  - intros Hle. rewrite take_ge; [done|]. by rewrite Hperm.
Qed.

Lemma get_top_ranked_genes_from_sig_length_witness :
  length ["g2"; "g1"] = (2 `min` length (index sig_example))%nat ∧
  ["g2"; "g1"] ⊆+ index sig_example ∧
  ((length (index sig_example) ≤ 2)%nat → ["g2"; "g1"] ≡ₚ index sig_example).
Proof.
  apply (get_top_ranked_genes_from_sig_length argsort_ascending sig_example
           2 1 "B").
  - apply argsort_ascending_sorts.
  - split; [reflexivity | repeat constructor].
  - apply (bool_decide_unpack _). by vm_compute.
  - reflexivity.
  - vm_compute. reflexivity.
Defined.

(** X10: the genes listed are the most expressed ones: in a table whose
    genes are labelled without repetition, the value, for the cell type, of
    a gene that is left out is at most the value of every gene that is
    listed. *)
Theorem get_top_ranked_genes_from_sig_dominates
    (argsort : list Q → list nat) (sig_df : Table) (sig_size j : nat)
    (c : string) (l : list string) (i i' : nat) (g g' : string) :
  argsort_sorts argsort →
  rectangular sig_df → NoDup (columns sig_df) → NoDup (index sig_df) →
  columns sig_df !! j = Some c →
  get_top_ranked_genes_from_sig argsort sig_df sig_size !! c = Some l →
  index sig_df !! i = Some g → index sig_df !! i' = Some g' →
  g ∈ l → g' ∉ l →
  (column j (values sig_df) !!! i' <= column j (values sig_df) !!! i)%Q.
Proof.
  intros Hargsort [Hlen Hrows] Hndc Hndi Hj Hl Hi Hi' Hg Hg'.
  rewrite (get_top_ranked_lookup argsort sig_df sig_size j c Hndc Hj) in Hl.
  injection Hl as <-.
  set (col := column j (values sig_df)) in *.
  set (order := nargsort_descending argsort col).
  pose proof (nargsort_descending_permutation argsort Hargsort col) as Hperm.
  fold order in Hperm.
  assert (length col = length (index sig_df)) as Hcol.
  { unfold col. by rewrite length_column. }
  rewrite Hcol in Hperm.
  unfold sort_values_descending in Hg, Hg'. fold order in Hg, Hg'.
  rewrite <-fmap_take in Hg, Hg'.
  assert (∀ k, k ∈ order → (k < length (index sig_df))%nat) as Hbound.
  { intros k Hk. rewrite Hperm in Hk. apply elem_of_seq in Hk. lia. }
  assert (i ∈ take sig_size order) as Hin.
  { apply list_elem_of_fmap in Hg as (i0 & Hi0 & Hin0).
    assert (index sig_df !! i0 = Some g) as Hi0'.
    { rewrite Hi0. apply list_lookup_lookup_total_lt, Hbound.
      apply elem_of_take in Hin0 as (k & Hk & _).
      by eapply list_elem_of_lookup_2. }
    by rewrite (NoDup_lookup _ _ _ _ Hndi Hi Hi0'). }
  assert (i' ∈ drop sig_size order) as Hout.
  { assert (i' ∈ order) as Hi'o.
    { rewrite Hperm. apply elem_of_seq.
      apply lookup_lt_Some in Hi'. lia. }
    rewrite <-(take_drop sig_size order) in Hi'o.
    apply elem_of_app in Hi'o as [Htake|Hdrop]; [|done].
    exfalso. apply Hg'. apply list_elem_of_fmap. exists i'. split; [|done].
    symmetry. by apply list_lookup_total_correct. }
  pose proof (nargsort_descending_strongly_sorted argsort Hargsort col)
    as Hsorted.
  fold order in Hsorted.
  rewrite <-(take_drop sig_size order), fmap_app in Hsorted.
  apply (StronglySorted_app_1_elem_of _ _ _ (col !!! i) (col !!! i'))
    in Hsorted; [done|..].
  - apply list_elem_of_fmap. by exists i.
  - apply list_elem_of_fmap. by exists i'.
Qed.

Lemma get_top_ranked_genes_from_sig_dominates_witness :
  (column 1 (values sig_example) !!! 2%nat
   <= column 1 (values sig_example) !!! 0%nat)%Q.
Proof.
  apply (get_top_ranked_genes_from_sig_dominates argsort_ascending
           sig_example 2 1 "B" ["g2"; "g1"] 0 2 "g1" "g3").
  - apply argsort_ascending_sorts.
  - split; [reflexivity | repeat constructor].
  - apply (bool_decide_unpack _). by vm_compute.
  - apply (bool_decide_unpack _). by vm_compute.
  - reflexivity.
  - vm_compute. reflexivity.
  - reflexivity.
  - reflexivity.
  - apply (bool_decide_unpack _). by vm_compute.
  - apply (bool_decide_unpack _). by vm_compute.
Defined.

(** X11: asking for more genes extends the lists: with the same table, the
    list of a cell type for a smaller [sig_size] is the beginning of its
    list for a larger one. *)
Theorem get_top_ranked_genes_from_sig_prefix
    (argsort : list Q → list nat) (sig_df : Table) (n1 n2 j : nat)
    (c : string) (l1 l2 : list string) :
  NoDup (columns sig_df) → columns sig_df !! j = Some c →
  (n1 ≤ n2)%nat →
  get_top_ranked_genes_from_sig argsort sig_df n1 !! c = Some l1 →
  get_top_ranked_genes_from_sig argsort sig_df n2 !! c = Some l2 →
  l1 = take n1 l2.
Proof.
  intros Hnd Hj Hle Hl1 Hl2.
  rewrite (get_top_ranked_lookup argsort sig_df n1 j c Hnd Hj) in Hl1.
  rewrite (get_top_ranked_lookup argsort sig_df n2 j c Hnd Hj) in Hl2.
  simplify_eq. rewrite take_take. f_equal. lia.
Qed.

Lemma get_top_ranked_genes_from_sig_prefix_witness :
  ["g2"] = take 1 ["g2"; "g1"].
Proof.
  apply (get_top_ranked_genes_from_sig_prefix argsort_ascending sig_example
           1 2 1 "B").
  - apply (bool_decide_unpack _). by vm_compute.
  - reflexivity.
  - lia.
  - vm_compute. reflexivity.
  - vm_compute. reflexivity.
Defined.

(** ** More on the genes shared by two tables *)

Lemma elem_of_rows_key {V} (df : DataFrame (list string) V) r :
  r ∈ rows df → r.1 ∈ index df.
Proof. destruct r as [g row]. intros Hr. by eapply elem_of_zip_l. Qed.

Lemma elem_of_located {V} (rs : list (string * list V)) labels r :
  r ∈ (labels ≫= λ l, filter (λ r, r.1 = l) rs) ↔ r ∈ rs ∧ r.1 ∈ labels.
Proof.
  rewrite list_elem_of_bind. split.
  - intros (l & Hr & Hl). apply list_elem_of_filter in Hr as [<- Hr]. done.
  - intros [Hr Hl]. exists r.1. split; [|done]. by apply list_elem_of_filter.
Qed.

Lemma keep_common_genes_Ok (rna_df sig_df : Table) :
  rectangular rna_df → rectangular sig_df →
  keep_common_genes rna_df sig_df
  = Ok (sort_index
          (of_rows (columns rna_df)
             (merge_inner_index (index rna_df) (index sig_df)
                ≫= λ l, filter (λ r, r.1 = l) (rows rna_df))),
        sort_index
          (of_rows (columns sig_df)
             (merge_inner_index (index rna_df) (index sig_df)
                ≫= λ l, filter (λ r, r.1 = l) (rows sig_df)))).
Proof.
  intros Hrna Hsig. unfold keep_common_genes.
  set (shared := merge_inner_index (index rna_df) (index sig_df)).
  assert (∀ g, g ∈ shared ↔ g ∈ index rna_df ∧ g ∈ index sig_df) as Hshared.
  { intros g. apply elem_of_merge_inner_index. }
  rewrite (loc_shared_Ok rna_df shared Hrna); last first.
  { apply Forall_forall. intros g Hg. by apply Hshared in Hg as [? _]. }
  rewrite (loc_shared_Ok sig_df shared Hsig); last first.
  { apply Forall_forall. intros g Hg. by apply Hshared in Hg as [_ ?]. }
  done.
Qed.

(** X12: nothing is lost and nothing is altered: the rows of the first
    table returned are exactly the rows of [rna_df] whose gene is a row label
    of [sig_df], with their cells, and likewise for the second; the column
    labels are those of the inputs and the tables returned are
    rectangular. *)
Theorem keep_common_genes_rows (rna_df sig_df rna_df_red sig_df_red : Table) :
  rectangular rna_df → rectangular sig_df →
  keep_common_genes rna_df sig_df = Ok (rna_df_red, sig_df_red) →
  (∀ r, r ∈ rows rna_df_red ↔ r ∈ rows rna_df ∧ r.1 ∈ index sig_df) ∧
  (∀ r, r ∈ rows sig_df_red ↔ r ∈ rows sig_df ∧ r.1 ∈ index rna_df) ∧
  columns rna_df_red = columns rna_df ∧
  columns sig_df_red = columns sig_df ∧
  rectangular rna_df_red ∧ rectangular sig_df_red.
Proof.
  intros Hrna Hsig Hrun.
  rewrite (keep_common_genes_Ok rna_df sig_df Hrna Hsig) in Hrun.
  injection Hrun as <- <-.
  split_and!; try done.
  - intros r. unfold sort_index. rewrite !rows_of_rows.
    rewrite merge_sort_Permutation, elem_of_located.
    rewrite elem_of_merge_inner_index. split; [tauto|].
    intros [Hr Hs]. split_and!; try done. by apply elem_of_rows_key.
  - intros r. unfold sort_index. rewrite !rows_of_rows.
    rewrite merge_sort_Permutation, elem_of_located.
    rewrite elem_of_merge_inner_index. split; [tauto|].
    intros [Hr Hs]. split_and!; try done. by apply elem_of_rows_key.
  - apply rectangular_of_rows. simpl. rewrite rows_of_rows.
    apply Forall_forall. intros r Hr.
    rewrite merge_sort_Permutation in Hr. apply located_sub in Hr.
    by apply (proj1 (Forall_forall _ _) (rows_rectangular rna_df Hrna)).
  - apply rectangular_of_rows. simpl. rewrite rows_of_rows.
    apply Forall_forall. intros r Hr.
    rewrite merge_sort_Permutation in Hr. apply located_sub in Hr.
    by apply (proj1 (Forall_forall _ _) (rows_rectangular sig_df Hsig)).
Qed.

Lemma keep_common_genes_rows_witness :
  (∀ r, r ∈ rows (of_rows ["patient1"; "patient2"]
                    [("BRCA1", [3; 4]); ("EGFR", [5; 6])]%Q) ↔
        r ∈ rows rna_example ∧ r.1 ∈ index sig_shared_example) ∧
  (∀ r, r ∈ rows (of_rows ["B cells"] [("BRCA1", [9]); ("EGFR", [7])]%Q) ↔
        r ∈ rows sig_shared_example ∧ r.1 ∈ index rna_example) ∧
  columns (of_rows ["patient1"; "patient2"]
             [("BRCA1", [3; 4]); ("EGFR", [5; 6])]%Q)
  = columns rna_example ∧
  columns (of_rows ["B cells"] [("BRCA1", [9]); ("EGFR", [7])]%Q)
  = columns sig_shared_example ∧
  rectangular (of_rows ["patient1"; "patient2"]
                 [("BRCA1", [3; 4]); ("EGFR", [5; 6])]%Q) ∧
  rectangular (of_rows ["B cells"] [("BRCA1", [9]); ("EGFR", [7])]%Q).
Proof.
  apply (keep_common_genes_rows rna_example sig_shared_example).
  - split; [reflexivity | repeat constructor].
  - split; [reflexivity | repeat constructor].
  - vm_compute. reflexivity.
Defined.

(** X13: two tables that share no gene give two tables without rows, under
    the column labels of the inputs; no error is raised. *)
Theorem keep_common_genes_no_shared_gene (rna_df sig_df : Table) :
  (∀ g, g ∈ index rna_df → g ∉ index sig_df) →
  keep_common_genes rna_df sig_df
  = Ok ({| index := []; columns := columns rna_df; values := [] |},
        {| index := []; columns := columns sig_df; values := [] |}).
Proof.
  intros Hdisj. unfold keep_common_genes.
  assert (merge_inner_index (index rna_df) (index sig_df) = []) as ->; [|done].
  destruct (merge_inner_index (index rna_df) (index sig_df)) as [|g l] eqn:Hm;
    [done|].
  assert (g ∈ merge_inner_index (index rna_df) (index sig_df)) as Hg.
  { rewrite Hm. by left. }
  apply elem_of_merge_inner_index in Hg as [Hl Hr].
  by destruct (Hdisj g Hl).
Qed.

Lemma keep_common_genes_no_shared_gene_witness :
  keep_common_genes rna_example sig_example
  = Ok ({| index := []; columns := columns rna_example; values := [] |},
        {| index := []; columns := columns sig_example; values := [] |}).
Proof.
  apply (keep_common_genes_no_shared_gene rna_example sig_example).
  intros g Hg. apply (bool_decide_unpack _).
  simpl in Hg.
  repeat (apply elem_of_cons in Hg as [->|Hg]; [by vm_compute|]).
  by apply elem_of_nil in Hg.
Defined.

Lemma located_all_NoDup {V} (rs : list (string * list V)) :
  NoDup rs.*1 → (rs.*1 ≫= λ l, filter (λ r, r.1 = l) rs) = rs.
Proof.
  intros Hnd.
  assert (∀ sub, sub ⊆ rs →
            (sub.*1 ≫= λ l, filter (λ r, r.1 = l) rs) = sub) as Hsub.
  { induction sub as [|r sub IH]; intros Hin; [done|].
    rewrite fmap_cons, bind_cons, IH.
    - rewrite (filter_key_NoDup rs r Hnd); [done|]. apply Hin. by left.
    - intros x Hx. apply Hin. by right. }
  by apply Hsub.
Qed.

Lemma rows_unique_by_key {V} (l1 l2 : list (string * list V)) :
  l1 ≡ₚ l2 → l1.*1 = l2.*1 → NoDup l1.*1 → l1 = l2.
Proof.
  intros Hperm Hkeys Hnd. apply list_eq. intros i.
  destruct (l1 !! i) as [r1|] eqn:H1.
  - assert (r1 ∈ l2) as Hin.
    { rewrite <-Hperm. by eapply list_elem_of_lookup_2. }
    apply list_elem_of_lookup_1 in Hin as [k Hk].
    assert (l1.*1 !! i = Some r1.1) as Hi1.
    { by rewrite list_lookup_fmap, H1. }
    assert (l1.*1 !! k = Some r1.1) as Hk1.
    { by rewrite Hkeys, list_lookup_fmap, Hk. }
    by rewrite (NoDup_lookup _ _ _ _ Hnd Hi1 Hk1).
  - symmetry. apply lookup_ge_None. apply lookup_ge_None in H1.
    apply Permutation_length in Hperm. lia.
Qed.

Lemma sort_index_sorted_unique (df : Table) :
  rectangular df → NoDup (index df) → StronglySorted string_le (index df) →
  sort_index df = df.
Proof.
  intros Hrect Hnd Hsorted.
  assert (merge_sort key_le (rows df) = rows df) as Hrows.
  { apply rows_unique_by_key.
    - apply merge_sort_Permutation.
    - rewrite <-sort_index_keys.
      apply (StronglySorted_unique string_le).
      + apply sort_index_sorted.
      + by rewrite rows_keys.
      + apply sort_index_permutation.
    - rewrite merge_sort_Permutation. by rewrite rows_keys. }
  unfold sort_index. rewrite Hrows.
  destruct df as [idx cols X]. unfold of_rows, rows. simpl.
  destruct Hrect as [Hlen _]. simpl in Hlen.
  unfold axis_len, list_axis_len in Hlen.
  f_equal; [apply fst_zip; lia | apply snd_zip; lia].
Qed.

(** X14: two rectangular tables that list the same genes, once each and in
    ascending order, are returned as they are. *)
Theorem keep_common_genes_aligned (rna_df sig_df : Table) :
  rectangular rna_df → rectangular sig_df →
  index rna_df = index sig_df →
  NoDup (index rna_df) → StronglySorted string_le (index rna_df) →
  keep_common_genes rna_df sig_df = Ok (rna_df, sig_df).
Proof.
  intros Hrna Hsig Heq Hnd Hsorted.
  rewrite (keep_common_genes_Ok rna_df sig_df Hrna Hsig).
  assert (merge_inner_index (index rna_df) (index sig_df) = index rna_df)
    as ->.
  { unfold merge_inner_index. rewrite <-Heq.
    apply located_keys_NoDup; [done|]. by apply Forall_forall. }
  assert (∀ df : Table,
            rectangular df → NoDup (index df) →
            StronglySorted string_le (index df) →
            sort_index
              (of_rows (columns df)
                 (index df ≫= λ l, filter (λ r, r.1 = l) (rows df)))
            = df) as Hfix.
  { intros df Hrect Hnd' Hs.
    rewrite <-(rows_keys df Hrect) at 1.
    rewrite located_all_NoDup by (by rewrite rows_keys).
    assert (of_rows (columns df) (rows df) = df) as ->.
    { destruct df as [idx cols X]. unfold of_rows, rows. simpl.
      destruct Hrect as [Hlen _]. simpl in Hlen.
      unfold axis_len, list_axis_len in Hlen.
      f_equal; [apply fst_zip; lia | apply snd_zip; lia]. }
    by apply sort_index_sorted_unique. }
  rewrite (Hfix rna_df Hrna Hnd Hsorted).
  rewrite Heq. rewrite Heq in Hnd, Hsorted.
  by rewrite (Hfix sig_df Hsig Hnd Hsorted).
Qed.

Lemma keep_common_genes_aligned_witness :
  keep_common_genes
    (of_rows ["patient1"; "patient2"]
       [("BRCA1", [3; 4]); ("EGFR", [5; 6])]%Q)
    (of_rows ["B cells"] [("BRCA1", [9]); ("EGFR", [7])]%Q)
  = Ok (of_rows ["patient1"; "patient2"]
          [("BRCA1", [3; 4]); ("EGFR", [5; 6])]%Q,
        of_rows ["B cells"] [("BRCA1", [9]); ("EGFR", [7])]%Q).
Proof.
  apply keep_common_genes_aligned.
  - split; [reflexivity | repeat constructor].
  - split; [reflexivity | repeat constructor].
  - reflexivity.
  - apply (bool_decide_unpack _). by vm_compute.
  - apply (bool_decide_unpack _). by vm_compute.
Defined.

(** ** More on the variance threshold *)

Lemma rows_values {V} (df : DataFrame (list string) V) :
  rectangular df → (rows df).*2 = values df.
Proof.
  intros [Hlen _]. apply snd_zip. simpl in Hlen.
  unfold axis_len, list_axis_len in Hlen. lia.
Qed.

Lemma variance_threshold_selector_cases (data : Table) (threshold : Q) :
  rectangular data → NoDup (index data) →
  columns data ≠ [] → index data ≠ [] → (0 <= threshold)%Q →
  variance_threshold_selector data threshold
  = if forallb (λ v, Qle_bool v threshold) (var <$> values data)
    then Raise (ValueError "No feature in X meets the variance threshold")
    else Ok (of_rows (columns data)
               (filter (λ r, (threshold < var r.2)%Q) (rows data))).
Proof.
  intros Hrect Hnd Hcols Hidx Hth.
  unfold variance_threshold_selector, variance_threshold_support.
  rewrite (transpose_involutive data Hrect).
  change (index (transpose data)) with (columns data).
  change (columns (transpose data)) with (index data).
  rewrite check_threshold_Ok by done.
  rewrite check_array_Ok by (by destruct (columns data), (index data)).
  simpl. destruct (forallb _ _) eqn:Hall; [done|].
  simpl. unfold getitem_columns.
  rewrite (transpose_involutive data Hrect).
  rewrite (selected_rows data threshold Hrect Hnd). simpl.
  rewrite transpose_involutive; [done|].
  apply rectangular_of_rows, Forall_forall. intros r Hr.
  apply list_elem_of_filter in Hr as [_ Hr].
  by apply (proj1 (Forall_forall _ _) (rows_rectangular data Hrect)).
Qed.

Lemma variance_threshold_selector_refuses (data : Table) (threshold : Q) :
  index data = [] ∨ columns data = [] →
  ∃ msg,
    variance_threshold_selector data threshold = Raise (ValueError msg).
Proof.
  intros Hempty.
  unfold variance_threshold_selector, variance_threshold_support.
  change (index (transpose data)) with (columns data).
  change (columns (transpose data)) with (index data).
  destruct (Qlt_le_dec threshold 0) as [Hneg|Hth].
  { destruct (check_threshold_raises threshold Hneg) as [msg ->].
    by eexists. }
  rewrite check_threshold_Ok by done.
  destruct (check_array_raises (length (columns data)) (length (index data)))
    as [msg ->]; [|by eexists].
  destruct Hempty as [-> | ->]; [by right|by left].
Qed.

(** X15: selections compose: after a selection at a threshold, a selection
    of the result at a threshold at least as high gives what that second
    selection gives on the table itself, be it a table or the error of a
    selection that keeps no gene; in particular a second selection at the
    same threshold changes nothing. *)
Theorem variance_threshold_selector_compose
    (data data_red : Table) (threshold1 threshold2 : Q) :
  rectangular data → NoDup (index data) →
  (0 <= threshold1)%Q → (threshold1 <= threshold2)%Q →
  variance_threshold_selector data threshold1 = Ok data_red →
  variance_threshold_selector data_red threshold2
  = variance_threshold_selector data threshold2 ∧
  variance_threshold_selector data_red threshold1 = Ok data_red.
Proof.
  intros Hrect Hnd Hth1 Hle Hrun.
  assert (columns data ≠ [] ∧ index data ≠ []) as [Hcols Hidx].
  { split; intros Hnil.
    - destruct (variance_threshold_selector_refuses data threshold1)
        as [msg Hmsg]; [by right|]. by rewrite Hmsg in Hrun.
    - destruct (variance_threshold_selector_refuses data threshold1)
        as [msg Hmsg]; [by left|]. by rewrite Hmsg in Hrun. }
  rewrite (variance_threshold_selector_cases data threshold1) in Hrun
    by done.
  destruct (forallb _ (var <$> values data)) eqn:Hall1; [done|].
  injection Hrun as <-.
  set (kept := filter (λ r : string * list Q, (threshold1 < var r.2)%Q)
                 (rows data)).
  assert (rectangular (of_rows (columns data) kept)) as Hrect'.
  { apply rectangular_of_rows, Forall_forall. intros r Hr.
    apply list_elem_of_filter in Hr as [_ Hr].
    by apply (proj1 (Forall_forall _ _) (rows_rectangular data Hrect)). }
  assert (NoDup (index (of_rows (columns data) kept))) as Hnd'.
  { simpl.
    assert (kept.*1 `sublist_of` (rows data).*1) as Hsub.
    { apply fmap_sublist, sublist_filter. }
    eapply sublist_NoDup; [|exact Hsub]. by rewrite rows_keys. }
  assert (kept ≠ []) as Hkept.
  { intros Hnil. apply not_true_iff_false in Hall1. apply Hall1.
    apply forallb_variances, Forall_forall. intros row Hrow.
    rewrite <-(rows_values data Hrect) in Hrow.
    apply list_elem_of_fmap in Hrow as (r & -> & Hr).
    destruct (Qlt_le_dec threshold1 (var r.2)) as [Hlt|?]; [|done].
    exfalso.
    assert (r ∈ kept) as Hin by (by apply list_elem_of_filter).
    rewrite Hnil in Hin. by apply elem_of_nil in Hin. }
  assert (index (of_rows (columns data) kept) ≠ []) as Hidx'.
  { simpl. by destruct kept. }
  assert (∀ threshold, (threshold1 <= threshold)%Q →
            variance_threshold_selector (of_rows (columns data) kept)
              threshold
            = variance_threshold_selector data threshold) as Hsame.
  { intros threshold Hth.
    assert (0 <= threshold)%Q as Hth0 by (by eapply Qle_trans).
    rewrite (variance_threshold_selector_cases (of_rows _ kept)) by done.
    rewrite (variance_threshold_selector_cases data) by done.
    rewrite rows_of_rows.
    change (columns (of_rows (columns data) kept)) with (columns data).
    change (values (of_rows (columns data) kept)) with (kept.*2).
    assert (filter (λ r : string * list Q, (threshold < var r.2)%Q) kept
            = filter (λ r : string * list Q, (threshold < var r.2)%Q)
                (rows data)) as ->.
    { unfold kept. apply list_filter_filter_l. intros r Hr. simpl in *.
      by eapply Qle_lt_trans. }
    assert (forallb (λ v, Qle_bool v threshold) (var <$> kept.*2)
            = forallb (λ v, Qle_bool v threshold) (var <$> values data))
      as ->; [|done].
    apply eq_true_iff_eq. rewrite !forallb_variances.
    rewrite <-(rows_values data Hrect), !Forall_fmap. split.
    - intros Hall. apply Forall_forall. intros r Hr. simpl.
      destruct (Qlt_le_dec threshold1 (var r.2)) as [Hlt|Hge].
      + apply (proj1 (Forall_forall _ _) Hall r).
        by apply list_elem_of_filter.
      + by eapply Qle_trans.
    - intros Hall. apply Forall_forall. intros r Hr.
      apply list_elem_of_filter in Hr as [_ Hr].
      by apply (proj1 (Forall_forall _ _) Hall r). }
  split; [by apply Hsame|].
  rewrite Hsame by apply Qle_refl.
  rewrite (variance_threshold_selector_cases data threshold1) by done.
  by rewrite Hall1.
Qed.

Lemma variance_threshold_selector_compose_witness :
  variance_threshold_selector
    (of_rows ["A"; "B"; "C"] [("g2", [1; 10; 2]); ("g3", [0; 0; 5])]%Q) 10
  = variance_threshold_selector sig_example 10 ∧
  variance_threshold_selector
    (of_rows ["A"; "B"; "C"] [("g2", [1; 10; 2]); ("g3", [0; 0; 5])]%Q)
    (1 # 2)
  = Ok (of_rows ["A"; "B"; "C"] [("g2", [1; 10; 2]); ("g3", [0; 0; 5])]%Q).
Proof.
  apply (variance_threshold_selector_compose sig_example).
  - split; [reflexivity | repeat constructor].
  - apply (bool_decide_unpack _). by vm_compute.
  - vm_compute. discriminate.
  - vm_compute. discriminate.
  - vm_compute. reflexivity.
Defined.

(** X16: a table without genes, or without columns, is refused: the
    validation of the selector raises a [ValueError] and no table is
    returned, whatever the threshold. *)
Theorem variance_threshold_selector_empty (data : Table) (threshold : Q) :
  index data = [] ∨ columns data = [] →
  ∃ msg,
    variance_threshold_selector data threshold = Raise (ValueError msg).
Proof.
  apply variance_threshold_selector_refuses.
Qed.

Lemma variance_threshold_selector_empty_witness :
  ∃ msg,
    variance_threshold_selector
      {| index := []; columns := ["A"; "B"]; values := [] |} (1 # 2)
    = Raise (ValueError msg).
Proof.
  apply variance_threshold_selector_empty. by left.
Defined.

(** ** More on the correlation tables *)

Section CorrCellFacts.
Variable pearsonr spearmanr : list Q → list Q → result float.
Variable results : gmap string Table.
Variable true_freqs : Table.

Lemma per_cell_filled_loc_set (corr : list Q → list Q → result float)
    (dealt : list (string * string)) (f : CorrFrame) (m c : string)
    (v : float) :
  per_cell_filled corr results true_freqs dealt f →
  corr_of corr results true_freqs m c = Ok v →
  per_cell_filled corr results true_freqs (dealt ++ [(m, c)])
    (loc_set c m v f).
Proof.
  intros [Hrect Hfilled] Hv. split; [by apply loc_set_rectangular|].
  intros i j c' m' Hi Hj Hin. simpl in Hi, Hj.
  rewrite loc_set_cell by done.
  destruct (decide (index f !! i = Some c ∧ columns f !! j = Some m))
    as [[Hi' Hj']|Hn].
  - rewrite Hi in Hi'. rewrite Hj in Hj'. simplify_eq. by exists v.
  - apply (Hfilled i j c' m' Hi Hj).
    apply elem_of_app in Hin as [?|Hin]; [done|].
    apply list_elem_of_singleton in Hin. simplify_eq. by destruct Hn.
Qed.

Lemma per_cell_loop_filled (method : string) (cell_types : list string)
    (dealt : list (string * string)) (st st' : corr_locals) :
  per_cell_filled pearsonr results true_freqs dealt (p_corr_per_cell st) →
  per_cell_filled spearmanr results true_freqs dealt (s_corr_per_cell st) →
  for_each cell_types
    (per_cell_body pearsonr spearmanr results true_freqs method) st
  = Ok st' →
  per_cell_filled pearsonr results true_freqs
    (dealt ++ ((λ c, (method, c)) <$> cell_types)) (p_corr_per_cell st') ∧
  per_cell_filled spearmanr results true_freqs
    (dealt ++ ((λ c, (method, c)) <$> cell_types)) (s_corr_per_cell st') ∧
  index (p_corr_per_cell st') = index (p_corr_per_cell st) ∧
  columns (p_corr_per_cell st') = columns (p_corr_per_cell st) ∧
  index (s_corr_per_cell st') = index (s_corr_per_cell st) ∧
  columns (s_corr_per_cell st') = columns (s_corr_per_cell st).
Proof.
  revert dealt st.
  induction cell_types as [|c cell_types IH]; intros dealt st Hp Hs; simpl.
  - intros [= <-]. by rewrite app_nil_r.
  - destruct (per_cell_body _ _ _ _ _ st c) as [st1|] eqn:Hbody;
      simpl; [|done].
    unfold per_cell_body in Hbody.
    destruct (corr_of pearsonr results true_freqs method c) as [p|] eqn:Hpv;
      simpl in Hbody; [|done].
    destruct (corr_of spearmanr results true_freqs method c) as [s|] eqn:Hsv;
      simpl in Hbody; [|done].
    injection Hbody as <-. intros Hloop.
    rewrite cons_middle, app_assoc.
    apply (IH (dealt ++ [(method, c)])) in Hloop;
      [|by apply per_cell_filled_loc_set..].
    by destruct Hloop as (? & ? & -> & -> & -> & ->).
Qed.

Lemma per_method_cells (method : string) (cell_types : list string)
    (dealt : list (string * string)) (st st' : corr_locals) :
  per_cell_filled pearsonr results true_freqs dealt (p_corr_per_cell st) →
  per_cell_filled spearmanr results true_freqs dealt (s_corr_per_cell st) →
  per_method_body pearsonr spearmanr results cell_types true_freqs st method
  = Ok st' →
  per_cell_filled pearsonr results true_freqs
    (dealt ++ ((λ c, (method, c)) <$> cell_types)) (p_corr_per_cell st') ∧
  per_cell_filled spearmanr results true_freqs
    (dealt ++ ((λ c, (method, c)) <$> cell_types)) (s_corr_per_cell st') ∧
  index (p_corr_per_cell st') = index (p_corr_per_cell st) ∧
  columns (p_corr_per_cell st') = columns (p_corr_per_cell st) ∧
  index (s_corr_per_cell st') = index (s_corr_per_cell st) ∧
  columns (s_corr_per_cell st') = columns (s_corr_per_cell st).
Proof.
  intros Hp Hs. unfold per_method_body.
  destruct (for_each cell_types _ st) as [st1|] eqn:Hcells; simpl; [|done].
  apply (per_cell_loop_filled method cell_types dealt) in Hcells; [|done..].
  intros Hsamples.
  apply per_sample_loop in Hsamples
    as [[_ ->]|(c & p & s & _ & _ & _ & ->)]; done.
Qed.

Lemma per_method_loop_cells (l cell_types : list string)
    (dealt : list (string * string)) (st st' : corr_locals) :
  per_cell_filled pearsonr results true_freqs dealt (p_corr_per_cell st) →
  per_cell_filled spearmanr results true_freqs dealt (s_corr_per_cell st) →
  for_each l
    (per_method_body pearsonr spearmanr results cell_types true_freqs) st
  = Ok st' →
  per_cell_filled pearsonr results true_freqs
    (dealt ++ (l ≫= λ m, (λ c, (m, c)) <$> cell_types))
    (p_corr_per_cell st') ∧
  per_cell_filled spearmanr results true_freqs
    (dealt ++ (l ≫= λ m, (λ c, (m, c)) <$> cell_types))
    (s_corr_per_cell st') ∧
  index (p_corr_per_cell st') = index (p_corr_per_cell st) ∧
  columns (p_corr_per_cell st') = columns (p_corr_per_cell st) ∧
  index (s_corr_per_cell st') = index (s_corr_per_cell st) ∧
  columns (s_corr_per_cell st') = columns (s_corr_per_cell st).
Proof.
  revert dealt st. induction l as [|m l IH]; intros dealt st Hp Hs; simpl.
  - intros [= <-]. by rewrite app_nil_r.
  - destruct (per_method_body _ _ _ _ _ st m) as [st1|] eqn:Hbody;
      simpl; [|done].
    apply (per_method_cells m cell_types dealt) in Hbody; [|done..].
    destruct Hbody as (Hp1 & Hs1 & <- & <- & <- & <-).
    intros Hloop. rewrite app_assoc. by apply IH.
Qed.

End CorrCellFacts.

(** X17: in the two per-cell tables that [corr_table] returns, rows are the
    cell types and columns the methods, and the entry of a cell type under
    a method is the absolute coefficient between the estimates of that
    method for that cell type and the true frequencies of the cell type. *)
Theorem corr_table_per_cell_entries
    (pearsonr spearmanr : list Q → list Q → result float)
    (methods : list string) (results : gmap string Table)
    (cell_types : list string) (true_freqs : Table)
    (p_cell p_sample s_cell s_sample : CorrFrame) :
  corr_table pearsonr spearmanr methods results cell_types true_freqs
  = Ok (p_cell, p_sample, s_cell, s_sample) →
  index p_cell = cell_types ∧ columns p_cell = methods ∧
  index s_cell = cell_types ∧ columns s_cell = methods ∧
  ∀ i j c m,
    cell_types !! i = Some c → methods !! j = Some m →
    ∃ p s,
      corr_of pearsonr results true_freqs m c = Ok p ∧
      corr_of spearmanr results true_freqs m c = Ok s ∧
      cell_at p_cell i j = Some (fabs p) ∧
      cell_at s_cell i j = Some (fabs s).
Proof.
  unfold corr_table.
  destruct (for_each methods _ _) as [st|] eqn:Hloop; simpl; [|done].
  intros [= <- <- <- <-].
  apply (per_method_loop_cells pearsonr spearmanr results true_freqs
           methods cell_types []) in Hloop; last first.
  - split; [apply empty_frame_rectangular|].
    by intros i j c m _ _ ?%elem_of_nil.
  - split; [apply empty_frame_rectangular|].
    by intros i j c m _ _ ?%elem_of_nil.
  - destruct Hloop as ((_ & Hp) & (_ & Hs) & Hip & Hcp & His & Hcs).
    simpl in *. split_and!; try done.
    intros i j c m Hi Hj.
    assert ((m, c) ∈ methods ≫= λ m, (λ c, (m, c)) <$> cell_types) as Hin.
    { apply list_elem_of_bind. exists m.
      split; [|by eapply list_elem_of_lookup_2].
      apply list_elem_of_fmap. exists c.
      split; [done|by eapply list_elem_of_lookup_2]. }
    destruct (Hp i j c m) as (p & Hpv & Hpc);
      [by rewrite Hip|by rewrite Hcp|done|].
    destruct (Hs i j c m) as (s & Hsv & Hsc);
      [by rewrite His|by rewrite Hcs|done|].
    exists p, s. by rewrite !np_abs_cell, Hpc, Hsc.
Qed.

Lemma corr_table_per_cell_entries_witness :
  index corr_example_out.1.1.1 = ["A"; "B"] ∧
  columns corr_example_out.1.1.1 = ["m1"] ∧
  index corr_example_out.1.2 = ["A"; "B"] ∧
  columns corr_example_out.1.2 = ["m1"] ∧
  ∀ i j c m,
    ["A"; "B"] !! i = Some c → ["m1"] !! j = Some m →
    ∃ p s,
      corr_of dot_product results_example truth_example m c = Ok p ∧
      corr_of sum_difference results_example truth_example m c = Ok s ∧
      cell_at corr_example_out.1.1.1 i j = Some (fabs p) ∧
      cell_at corr_example_out.1.2 i j = Some (fabs s).
Proof.
  apply (corr_table_per_cell_entries dot_product sum_difference ["m1"]
           results_example ["A"; "B"] truth_example
           corr_example_out.1.1.1 corr_example_out.1.1.2
           corr_example_out.1.2 corr_example_out.2).
  by vm_compute.
Defined.

(** X18: without cell types the variable [cell] is never bound: when the
    first method has results and there is at least one sample, the first
    turn of the loop over the samples fails with the unbound-local error and
    no table is returned. *)
Theorem corr_table_no_cell_types_unbound
    (pearsonr spearmanr : list Q → list Q → result float)
    (method : string) (methods : list string) (results : gmap string Table)
    (true_freqs : Table) :
  is_Some (results !! method) → index true_freqs ≠ [] →
  corr_table pearsonr spearmanr (method :: methods) results [] true_freqs
  = Raise (UnboundLocalError "cell").
Proof.
  intros _ Hidx. unfold corr_table. cbn [for_each].
  assert (∀ st, cell st = None →
            per_method_body pearsonr spearmanr results [] true_freqs st
              method
            = Raise (UnboundLocalError "cell")) as ->; [|done|done].
  intros st Hcell. unfold per_method_body. cbn [for_each].
  destruct (index true_freqs) as [|g idx]; [done|].
  simpl. unfold per_sample_body. by rewrite Hcell.
Qed.

Lemma corr_table_no_cell_types_unbound_witness :
  corr_table dot_product sum_difference ["m1"] results_example []
    truth_example
  = Raise (UnboundLocalError "cell").
Proof.
  apply corr_table_no_cell_types_unbound.
  - apply (bool_decide_unpack _). by vm_compute.
  - discriminate.
Defined.

(** X19: a method without an entry in [results] stops the call: when there
    is a cell type and the first method is not a key of [results], the
    lookup [results[method]] fails with a [KeyError] on that method. *)
Theorem corr_table_unknown_method
    (pearsonr spearmanr : list Q → list Q → result float)
    (method : string) (methods : list string) (results : gmap string Table)
    (c : string) (cell_types : list string) (true_freqs : Table) :
  results !! method = None →
  corr_table pearsonr spearmanr (method :: methods) results
    (c :: cell_types) true_freqs
  = Raise (KeyError method).
Proof.
  intros Hnone. unfold corr_table. cbn [for_each].
  assert (∀ st,
            per_method_body pearsonr spearmanr results (c :: cell_types)
              true_freqs st method
            = Raise (KeyError method)) as ->; [|done].
  intros st. unfold per_method_body. cbn [for_each].
  unfold per_cell_body, corr_of, dict_getitem. by rewrite Hnone.
Qed.

Lemma corr_table_unknown_method_witness :
  corr_table dot_product sum_difference ["m2"] results_example ["A"; "B"]
    truth_example
  = Raise (KeyError "m2").
Proof.
  apply corr_table_unknown_method. by vm_compute.
Defined.

(** ** Flattening a per-cell correlation table *)

Lemma bind_join {A B} (f : A → list B) (l : list A) :
  l ≫= f = mjoin (f <$> l).
Proof. by rewrite list_join_bind, list_fmap_bind. Qed.

Lemma length_join_same {A} (n : nat) (ls : list (list A)) :
  Forall (λ l, length l = n) ls → length (mjoin ls) = (length ls * n)%nat.
Proof.
  intros Hall. rewrite length_join.
  induction Hall as [|l ls Hl Hall IH]; [done|]. csimpl. lia.
Qed.

Lemma flatten_loop (f : CorrFrame) (l : list string) (k : nat)
    (acc : list float) :
  NoDup (columns f) → drop k (columns f) = l →
  for_each l
    (λ corr method, col ← getitem f method; Ok (corr ++ col)) acc
  = Ok (acc ++ mjoin ((λ j, column j (values f)) <$> seq k (length l))).
Proof.
  intros Hnd. revert k acc. induction l as [|method l IH]; intros k acc Hdrop.
  - simpl. by rewrite app_nil_r.
  - assert (columns f !! k = Some method) as Hk.
    { rewrite <-(Nat.add_0_r k), <-lookup_drop. by rewrite Hdrop. }
    rewrite (drop_S _ _ _ Hk) in Hdrop. injection Hdrop as Hdrop.
    cbn [for_each]. rewrite (getitem_NoDup f k method Hnd Hk).
    change (Ok (column k (values f)) ≫= λ col, Ok (acc ++ col))
      with (Ok (acc ++ column k (values f)) : result (list float)).
    change (Ok (acc ++ column k (values f)) ≫= ?g)
      with (g (acc ++ column k (values f))).
    cbv beta. rewrite (IH (S k) _ Hdrop). csimpl. by rewrite app_assoc.
Qed.

(** X20: a rectangular table of [n] cell types by [m] methods, with distinct
    method labels, is flattened without error into three columns of [n * m]
    entries; the row at position [j * n + i] holds method [j], cell type [i]
    and the entry of the table for them: the table is read method by
    method. *)
Theorem flatten_corr_per_cell_rows (corr_per_cell : CorrFrame) :
  rectangular corr_per_cell → NoDup (columns corr_per_cell) →
  ∃ flat,
    flatten_corr_per_cell corr_per_cell = Ok flat ∧
    length (flat_method flat)
    = (length (index corr_per_cell) * length (columns corr_per_cell))%nat ∧
    length (flat_cell_type flat) = length (flat_method flat) ∧
    length (flat_correlation flat) = length (flat_method flat) ∧
    ∀ i j c method,
      index corr_per_cell !! i = Some c →
      columns corr_per_cell !! j = Some method →
      ∃ v,
        cell_at corr_per_cell i j = Some v ∧
        flat_method flat !! (j * length (index corr_per_cell) + i)%nat
        = Some method ∧
        flat_cell_type flat !! (j * length (index corr_per_cell) + i)%nat
        = Some c ∧
        flat_correlation flat !! (j * length (index corr_per_cell) + i)%nat
        = Some v.
Proof.
  intros [Hlen Hrows] Hnd. unfold axis_len, list_axis_len in Hlen, Hrows.
  unfold flatten_corr_per_cell.
  set (n := length (index corr_per_cell)).
  set (m := length (columns corr_per_cell)).
  set (blocks_m := (λ method : string, replicate n method)
                      <$> columns corr_per_cell).
  set (blocks_c := replicate m (index corr_per_cell)).
  set (blocks_v := (λ j, column j (values corr_per_cell)) <$> seq 0 m).
  assert (Forall (λ l, length l = n) blocks_m) as Hbm.
  { apply Forall_fmap, Forall_forall. intros x _. simpl.
    by rewrite length_replicate. }
  assert (Forall (λ l, length l = n) blocks_c) as Hbc.
  { apply Forall_forall. intros l Hl.
    by apply elem_of_replicate in Hl as [-> _]. }
  assert (Forall (λ l, length l = n) blocks_v) as Hbv.
  { apply Forall_fmap, Forall_forall. intros x _. simpl.
    by rewrite length_column. }
  rewrite (bind_join (λ method, replicate n method)). fold blocks_m.
  rewrite (flatten_loop corr_per_cell (columns corr_per_cell) 0 [] Hnd eq_refl).
  rewrite app_nil_l. fold m. fold blocks_v.
  assert (length (mjoin blocks_m) = (n * m)%nat) as Hlm.
  { rewrite (length_join_same n) by done. unfold blocks_m.
    rewrite length_fmap. fold m. lia. }
  assert (length (mjoin blocks_c) = (n * m)%nat) as Hlc.
  { rewrite (length_join_same n) by done. unfold blocks_c.
    rewrite length_replicate. lia. }
  assert (length (mjoin blocks_v) = (n * m)%nat) as Hlv.
  { rewrite (length_join_same n) by done. unfold blocks_v.
    rewrite length_fmap, length_seq. lia. }
  unfold check_length. rewrite !decide_True by done. simpl.
  rewrite decide_True by done. simpl.
  eexists. split; [done|].
  cbn [flat_method flat_cell_type flat_correlation].
  split; [by rewrite Hlm; unfold n, m|].
  split; [by rewrite Hlc, Hlm|]. split; [by rewrite Hlv, Hlm|].
  intros i j c method Hi Hj.
  assert (i < n)%nat as Hin by (by eapply lookup_lt_Some).
  assert (j < m)%nat as Hjm by (by eapply lookup_lt_Some).
  destruct (lookup_lt_is_Some_2 (values corr_per_cell) i) as [row Hrow];
    [lia|].
  pose proof (Forall_lookup_1 _ _ _ _ Hrows Hrow) as Hlrow. simpl in Hlrow.
  destruct (lookup_lt_is_Some_2 row j) as [v Hv]; [fold m in Hlrow; lia|].
  exists v. split; [by unfold cell_at; rewrite Hrow|].
  split_and!.
  - apply (join_lookup_Some_same_length' n); [done..|].
    exists (replicate n method). split.
    + unfold blocks_m. by rewrite list_lookup_fmap, Hj.
    + by apply lookup_replicate_2.
  - apply (join_lookup_Some_same_length' n); [done..|].
    exists (index corr_per_cell). split; [|done].
    unfold blocks_c. by apply lookup_replicate_2.
  - apply (join_lookup_Some_same_length' n); [done..|].
    exists (column j (values corr_per_cell)). split.
    + unfold blocks_v. rewrite list_lookup_fmap, lookup_seq_lt by done.
      done.
    + rewrite (column_lookup j i _ row Hrow).
      by rewrite (list_lookup_total_correct _ _ _ Hv).
Qed.

Lemma flatten_corr_per_cell_rows_witness :
  ∃ flat,
    flatten_corr_per_cell corr_example_out.1.1.1 = Ok flat ∧
    length (flat_method flat)
    = (length (index corr_example_out.1.1.1)
       * length (columns corr_example_out.1.1.1))%nat ∧
    length (flat_cell_type flat) = length (flat_method flat) ∧
    length (flat_correlation flat) = length (flat_method flat) ∧
    ∀ i j c method,
      index corr_example_out.1.1.1 !! i = Some c →
      columns corr_example_out.1.1.1 !! j = Some method →
      ∃ v,
        cell_at corr_example_out.1.1.1 i j = Some v ∧
        flat_method flat !! (j * length (index corr_example_out.1.1.1) + i)%nat
        = Some method ∧
        flat_cell_type flat
          !! (j * length (index corr_example_out.1.1.1) + i)%nat
        = Some c ∧
        flat_correlation flat
          !! (j * length (index corr_example_out.1.1.1) + i)%nat
        = Some v.
Proof.
  apply (flatten_corr_per_cell_rows corr_example_out.1.1.1).
  - split; [reflexivity | repeat constructor].
  - apply (bool_decide_unpack _). by vm_compute.
Defined.

(** ** The errors of the long-format pairing *)

Lemma transpose_rows_keys (df : Table) :
  (rows (transpose df)).*1 = columns df.
Proof.
  unfold rows, transpose. simpl. apply fst_zip.
  rewrite length_fmap, length_seq. unfold axis_len, list_axis_len. lia.
Qed.

Lemma getitem_columns_index (df : Table) (labels : list string) :
  Forall (λ l, l ∈ columns df) labels →
  ∃ a, getitem_columns df labels = Ok a ∧ index a = index df.
Proof.
  intros Hall. unfold getitem_columns, loc.
  rewrite loc_rows_Ok by (by rewrite transpose_rows_keys).
  simpl. by eexists.
Qed.

Lemma loc_rows_missing {V} (rs : list (string * list V))
    (labels : list string) :
  Exists (λ l, l ∉ rs.*1) labels →
  ∃ key, loc_rows rs labels = Raise (KeyError key).
Proof.
  induction 1 as [l labels Hl|l labels Hex IH]; simpl.
  - assert (filter (λ r, r.1 = l) rs = []) as ->; [|by eexists].
    destruct (filter (λ r, r.1 = l) rs) as [|r found] eqn:Hf; [done|].
    assert (r ∈ filter (λ r, r.1 = l) rs) as Hr by (rewrite Hf; left).
    apply list_elem_of_filter in Hr as [Heq Hr].
    destruct Hl. rewrite <-Heq. by apply list_elem_of_fmap_2.
  - destruct IH as [key ->].
    destruct (filter (λ r, r.1 = l) rs); by eexists.
Qed.

(** X22: on two tables that both have every cell type among their columns,
    the call stops at the first use of [np] with the [NameError] when the
    two tables have the same number of rows; when they have not, it stops
    one statement earlier, the assignment of the 'Method' column raising a
    [ValueError] on the length of the list. *)
Theorem predicted_truth_bycell_errors
    (method : string) (method_freqs exp_freqs : Table)
    (cell_types : list string) :
  rectangular method_freqs → rectangular exp_freqs →
  Forall (λ c, c ∈ columns method_freqs) cell_types →
  Forall (λ c, c ∈ columns exp_freqs) cell_types →
  (length (index method_freqs) = length (index exp_freqs) →
   predicted_truth_bycell method method_freqs exp_freqs cell_types
   = Raise (NameError "np")) ∧
  (length (index method_freqs) ≠ length (index exp_freqs) →
   ∃ msg,
     predicted_truth_bycell method method_freqs exp_freqs cell_types
     = Raise (ValueError msg)).
Proof.
  intros _ _ Hm He. unfold predicted_truth_bycell.
  destruct (getitem_columns_index method_freqs cell_types Hm)
    as (a & -> & Ha).
  destruct (getitem_columns_index exp_freqs cell_types He)
    as (b & -> & Hb).
  simpl. rewrite length_app, Ha, Hb. split; intros Hlen.
  - rewrite decide_True by lia. done.
  - rewrite decide_False by lia. by eexists.
Qed.

Lemma predicted_truth_bycell_errors_witness :
  (length (index truth_example) = length (index truth_example) →
   predicted_truth_bycell "m1" truth_example truth_example ["A"]
   = Raise (NameError "np")) ∧
  (length (index truth_example) ≠ length (index truth_example) →
   ∃ msg,
     predicted_truth_bycell "m1" truth_example truth_example ["A"]
     = Raise (ValueError msg)).
Proof.
  apply (predicted_truth_bycell_errors "m1" truth_example truth_example
           ["A"]).
  - split; [reflexivity | repeat constructor].
  - split; [reflexivity | repeat constructor].
  - apply (bool_decide_unpack _). by vm_compute.
  - apply (bool_decide_unpack _). by vm_compute.
Defined.

(** X23: a cell type that is not a column of the table of estimates stops
    the call at once: selecting the columns raises a [KeyError]. *)
Theorem predicted_truth_bycell_unknown_cell_type
    (method : string) (method_freqs exp_freqs : Table)
    (cell_types : list string) (c : string) :
  c ∈ cell_types → c ∉ columns method_freqs →
  ∃ key,
    predicted_truth_bycell method method_freqs exp_freqs cell_types
    = Raise (KeyError key).
Proof.
  intros Hc Hnot. unfold predicted_truth_bycell, getitem_columns, loc.
  destruct (loc_rows_missing (rows (transpose method_freqs)) cell_types)
    as [key ->]; [|by eexists].
  apply Exists_exists. exists c. split; [done|].
  by rewrite transpose_rows_keys.
Qed.

Lemma predicted_truth_bycell_unknown_cell_type_witness :
  ∃ key,
    predicted_truth_bycell "m1" truth_example truth_example ["A"; "Z"]
    = Raise (KeyError key).
Proof.
  apply (predicted_truth_bycell_unknown_cell_type "m1" truth_example
           truth_example ["A"; "Z"] "Z").
  - apply (bool_decide_unpack _). by vm_compute.
  - apply (bool_decide_unpack _). by vm_compute.
Defined.

(** ** Expression files without an identifier column *)

Lemma col_pos_None (name : string) (cols : list string) :
  name ∉ cols → Readers.col_pos name cols = None.
Proof.
  induction cols as [|c cols IH]; [done|].
  intros [Hne Hnot]%not_elem_of_cons. simpl.
  rewrite decide_False by done. by rewrite IH.
Qed.

(** X24: the two identifier columns are both required, whichever identifier
    is asked for: on a file that lacks 'Hugo_Symbol' or 'Entrez_Gene_Id' the
    reader raises a [KeyError] once the file is read, before the identifier
    is looked at, and returns no table. *)
Theorem read_pancancer_rna_file_missing_column
    (py_str : Q → string) (path identifier : string) (w : Readers.World)
    (f : Readers.RawFrame) :
  Readers.files w !! path = Some f →
  "Hugo_Symbol" ∉ Readers.raw_columns f ∨
  "Entrez_Gene_Id" ∉ Readers.raw_columns f →
  ∃ key,
    Readers.read_pancancer_rna_file py_str path identifier w
    = (Raise (KeyError key),
       {| Readers.files := Readers.files w;
          Readers.reads := Readers.reads w ++ [path] |}).
Proof.
  intros Hf Hmissing.
  unfold Readers.read_pancancer_rna_file, Readers.read_csv, mbind, prog_bind,
    lift.
  rewrite Hf. cbn [Readers.columns_astype_str].
  destruct (Readers.col_pos "Hugo_Symbol" (Readers.raw_columns f))
    as [k|] eqn:Hk; [|by eexists].
  cbn [Readers.raw_columns].
  destruct Hmissing as [Hh|He].
  - by rewrite (col_pos_None _ _ Hh) in Hk.
  - rewrite (col_pos_None _ _ He). by eexists.
Qed.

Lemma read_pancancer_rna_file_missing_column_witness :
  ∃ key,
    Readers.read_pancancer_rna_file no_str "LM22.txt" "hugo" lm22_world
    = (Raise (KeyError key),
       {| Readers.files := Readers.files lm22_world;
          Readers.reads := Readers.reads lm22_world ++ ["LM22.txt"] |}).
Proof.
  apply (read_pancancer_rna_file_missing_column no_str "LM22.txt" "hugo"
           lm22_world lm22_file).
  - reflexivity.
  - left. apply (bool_decide_unpack _). by vm_compute.
Defined.
